(** * Steam player-count tracker (main.py): model and properties

    The program polls three HTTP endpoints for every configured game and
    appends one observation per game to a PostgreSQL store.  The model
    keeps the shape of the source: Python values as an inductive type, the
    functions of main.py as computations in a state-and-exception monad
    over an explicit world (network, clock, store, trace of events). *)

From Stdlib Require Import ZArith List String Ascii Bool Lia.
From Stdlib Require Import DecimalString.
From Stdlib Require Floats.SpecFloat.
Import ListNotations.

Local Open Scope string_scope.
Local Open Scope Z_scope.
Local Open Scope list_scope.

(** ** Python values

    What [response.json()] can produce, and what the collectors hand on:
    None, bool, int (unbounded), float (IEEE 754 data), str, list, dict.
    A dict is kept as an association list in insertion order; a lookup
    takes the first binding of the key. *)

#[local] Set Warnings "-register-all".

Inductive value : Type :=
| VNone
| VBool (b : bool)
| VInt (z : Z)
| VFloat (f : SpecFloat.spec_float)
| VStr (s : string)
| VList (l : list value)
| VDict (d : list (string * value)).

(** Exceptions.  The first five are the ones the collectors can meet
    (all subclasses of Exception); [DatabaseError] stands for the
    psycopg2 errors of the store tier. *)

Inductive db_error : Type :=
| OperationalError
| InterfaceError
| UndefinedTable
| ForeignKeyViolation.

Inductive exn : Type :=
| ConnectionError
| JSONDecodeError
| KeyError (k : string)
| TypeError
| AttributeError
| DatabaseError (k : db_error).

Definition store_tier (e : exn) : bool :=
  match e with
  | DatabaseError _ => true
  | _ => false
  end.

Inductive result (A : Type) : Type :=
| Ok (a : A)
| Raise (e : exn).

Arguments Ok {A} a.
Arguments Raise {A} e.

(** ** Operations of the language used by the collectors *)

Fixpoint dict_lookup (k : string) (d : list (string * value)) : option value :=
  match d with
  | [] => None
  | (k', v) :: d' => if String.eqb k k' then Some v else dict_lookup k d'
  end.

(** [x[k]] with a string key. *)
Definition subscript (x : value) (k : string) : result value :=
  match x with
  | VDict d =>
      match dict_lookup k d with
      | Some v => Ok v
      | None => Raise (KeyError k)
      end
  | _ => Raise TypeError
  end.

(** [x.get(k, default)]. *)
Definition dict_get (x : value) (k : string) (default : value) : result value :=
  match x with
  | VDict d =>
      match dict_lookup k d with
      | Some v => Ok v
      | None => Ok default
      end
  | _ => Raise AttributeError
  end.

(** Truth value of an object in an [if]. *)
Definition truthy (x : value) : bool :=
  match x with
  | VNone => false
  | VBool b => b
  | VInt z => negb (z =? 0)
  | VFloat (SpecFloat.S754_zero _) => false
  | VFloat _ => true
  | VStr s => negb (String.eqb s "")
  | VList l => match l with [] => false | _ => true end
  | VDict d => match d with [] => false | _ => true end
  end.

(** [x > 0]: defined on numbers only. *)
Definition gt_zero (x : value) : result bool :=
  match x with
  | VBool b => Ok b
  | VInt z => Ok (0 <? z)
  | VFloat (SpecFloat.S754_finite false _ _) => Ok true
  | VFloat (SpecFloat.S754_infinity false) => Ok true
  | VFloat _ => Ok false
  | _ => Raise TypeError
  end.

Fixpoint is_substring_from (fuel : nat) (p s : string) : bool :=
  if String.prefix p s then true
  else match fuel, s with
       | S fuel', String _ s' => is_substring_from fuel' p s'
       | _, _ => false
       end.

Definition is_substring (p s : string) : bool :=
  is_substring_from (String.length s) p s.

Definition is_str (k : string) (x : value) : bool :=
  match x with
  | VStr s => String.eqb s k
  | _ => false
  end.

(** [k in x] with a string [k]: key of a dict, element of a list,
    substring of a str; anything else is not iterable. *)
Definition contains (k : string) (x : value) : result bool :=
  match x with
  | VDict d => Ok (match dict_lookup k d with Some _ => true | None => false end)
  | VList l => Ok (existsb (is_str k) l)
  | VStr s => Ok (is_substring k s)
  | _ => Raise TypeError
  end.

(** [str(appid)] for an int. *)
Definition str (n : Z) : string :=
  NilZero.string_of_int (Z.to_int n).

(** ** The world the program runs in *)

Inductive endpoint : Type :=
| PlayerCountAPI   (* ISteamUserStats/GetNumberOfCurrentPlayers/v1 *)
| AppDetailsAPI    (* store.steampowered.com/api/appdetails *)
| SteamSpyAPI.     (* steamspy.com/api.php?request=appdetails *)

(** An HTTP response, as far as the program looks at it: what
    [response.json()] gives, a value or the exception of the parser. *)
Record response : Type := { json : result value }.

(** The record [get_sale_info] returns (a dict with these four keys). *)
Record sale : Type := {
  on_sale : bool;
  discount_percent : value;
  original_price : value;
  final_price : value
}.

(** A row of [player_counts]; the values are kept as the program
    passed them to the driver. *)
Record observation : Type := {
  row_id : Z;
  game_id : Z;
  timestamp : Z;
  player_count : value;
  row_on_sale : bool;
  row_discount_percent : value;
  row_original_price : value;
  row_final_price : value;
  estimated_owners : value
}.

(** The two tables; [None] is a table that does not exist yet. *)
Record database : Type := {
  games : option (list (Z * string));
  player_counts : option (list observation)
}.

Inductive statement : Type :=
| CreateGames
| CreatePlayerCounts
| InsertGame (appid : Z) (name : string)
| InsertObservation (appid ts : Z) (count : value) (sale_info : sale)
    (owners : value).

Inductive store_op : Type :=
| Connect
| Cursor
| Execute (s : statement)
| Commit
| CursorClose
| ConnClose.

(** What [print] writes, by format string rather than as rendered text. *)
Inductive message : Type :=
| PlayerCountError (appid : Z) (e : exn)
| SaleInfoError (appid : Z) (e : exn)
| OwnersError (appid : Z) (e : exn)
| Tracking (name : string) (appid : Z)
| Players (count : value)
| OnSale (yes : bool) (discount : value)
| Price (final original : value)
| Owners (owners : value).

Inductive event : Type :=
| Get (ep : endpoint) (appid : Z)   (* requests.get was called *)
| Print (m : message)
| Store (op : store_op)             (* a driver call that returned *)
| StoreFailed (op : store_op).      (* a driver call that raised *)

(** [net]: what each endpoint answers for an identifier.
    [clock]: the reading of [int(time.time())], by position in the run.
    [faults]: for each coming driver call, whether the store fails it
    (lost connection, rejected value, ...); no fault once exhausted.
    [serial]: the sequence behind [player_counts.id].
    [committed]: the durable contents of the store.
    [session]: the contents as seen by the open connection, if any.
    [log]: everything observable the run did, oldest first. *)
Record world : Type := {
  net : endpoint -> Z -> result response;
  clock : nat -> Z;
  faults : list bool;
  serial : Z;
  committed : database;
  session : option database;
  log : list event
}.

Definition set_faults (fs : list bool) (w : world) : world :=
  {| net := net w; clock := clock w; faults := fs; serial := serial w;
     committed := committed w; session := session w; log := log w |}.

Definition set_serial (n : Z) (w : world) : world :=
  {| net := net w; clock := clock w; faults := faults w; serial := n;
     committed := committed w; session := session w; log := log w |}.

Definition set_committed (db : database) (w : world) : world :=
  {| net := net w; clock := clock w; faults := faults w; serial := serial w;
     committed := db; session := session w; log := log w |}.

Definition set_session (s : option database) (w : world) : world :=
  {| net := net w; clock := clock w; faults := faults w; serial := serial w;
     committed := committed w; session := s; log := log w |}.

Definition record_event (e : event) (w : world) : world :=
  {| net := net w; clock := clock w; faults := faults w; serial := serial w;
     committed := committed w; session := session w; log := log w ++ [e] |}.

(** ** The monad of statements: state of the world and exceptions *)

Definition M (A : Type) : Type := world -> result A * world.

Definition ret {A : Type} (a : A) : M A := fun w => (Ok a, w).

Definition bind {A B : Type} (m : M A) (k : A -> M B) : M B :=
  fun w =>
    match m w with
    | (Ok a, w') => k a w'
    | (Raise e, w') => (Raise e, w')
    end.

Definition lift {A : Type} (r : result A) : M A := fun w => (r, w).

(** [try: body except Exception as e: handler e]. *)
Definition try_except {A : Type} (body : M A) (handler : exn -> M A) : M A :=
  fun w =>
    match body w with
    | (Ok a, w') => (Ok a, w')
    | (Raise e, w') => handler e w'
    end.

(** [for x in l: body x]. *)
Fixpoint for_each {A : Type} (l : list A) (body : A -> M unit) : M unit :=
  match l with
  | [] => ret tt
  | x :: l' => bind (body x) (fun _ => for_each l' body)
  end.

Declare Scope monad_scope.
Delimit Scope monad_scope with monad.
Notation "x <- m ;; k" := (bind m (fun x => k))
  (at level 61, m at next level, right associativity) : monad_scope.
Notation "m ;; k" := (bind m (fun _ => k))
  (at level 61, right associativity) : monad_scope.
Local Open Scope monad_scope.

Definition emit (e : event) : M unit := fun w => (Ok tt, record_event e w).

Definition print (m : message) : M unit := emit (Print m).

Definition time_time : M Z := fun w => (Ok (clock w (List.length (log w))), w).

Definition requests_get (ep : endpoint) (appid : Z) : M response :=
  emit (Get ep appid) ;; (fun w => (net w ep appid, w)).

Definition response_json (r : response) : M value := lift (json r).

(** ** The store: the SQL statements of main.py and the driver calls *)

Definition has_game (appid : Z) (rows : list (Z * string)) : bool :=
  existsb (fun r => fst r =? appid) rows.

(** A row goes in unless its id is taken (ON CONFLICT (id) DO NOTHING). *)
Definition insert_game (rows : list (Z * string)) (g : Z * string)
    : list (Z * string) :=
  if has_game (fst g) rows then rows else rows ++ [g].

Definition new_row (id : Z) (appid ts : Z) (count : value) (s : sale)
    (owners : value) : observation :=
  {| row_id := id; game_id := appid; timestamp := ts; player_count := count;
     row_on_sale := on_sale s;
     row_discount_percent := discount_percent s;
     row_original_price := original_price s;
     row_final_price := final_price s;
     estimated_owners := owners |}.

(** The effect of one statement on the contents seen by the connection.
    - CREATE TABLE IF NOT EXISTS leaves an existing table alone;
      [player_counts] refers to [games], which has to exist.
    - INSERT INTO games ... ON CONFLICT (id) DO NOTHING adds the row
      unless a row with that id is there.
    - INSERT INTO player_counts adds a row with the next [id]; [game_id]
      has to be the id of a game. *)
Definition run_statement (s : statement) (next_id : Z) (db : database)
    : db_error + database :=
  match s with
  | CreateGames =>
      match games db with
      | Some _ => inr db
      | None => inr {| games := Some []; player_counts := player_counts db |}
      end
  | CreatePlayerCounts =>
      match player_counts db, games db with
      | Some _, _ => inr db
      | None, Some _ => inr {| games := games db; player_counts := Some [] |}
      | None, None => inl UndefinedTable
      end
  | InsertGame appid name =>
      match games db with
      | None => inl UndefinedTable
      | Some rows =>
          inr {| games := Some (insert_game rows (appid, name));
                 player_counts := player_counts db |}
      end
  | InsertObservation appid ts count sale_info owners =>
      match player_counts db, games db with
      | Some obs, Some rows =>
          if has_game appid rows
          then inr {| games := games db;
                      player_counts :=
                        Some (obs ++ [new_row next_id appid ts count sale_info owners]) |}
          else inl ForeignKeyViolation
      | _, _ => inl UndefinedTable
      end
  end.

(** A driver call: the store may fail it (the fault schedule says so),
    or the call itself may be refused; either way it raises and nothing
    changes but the trace. *)
Definition store_call (op : store_op) (act : world -> db_error + world)
    : M unit :=
  fun w =>
    let w0 := set_faults (tl (faults w)) w in
    match faults w with
    | true :: _ =>
        (Raise (DatabaseError OperationalError), record_event (StoreFailed op) w0)
    | _ =>
        match act w0 with
        | inr w1 => (Ok tt, record_event (Store op) w1)
        | inl err => (Raise (DatabaseError err), record_event (StoreFailed op) w0)
        end
    end.

(** [conn = psycopg2.connect(...)] with the parameters of DB_CONFIG: the
    connection sees the
    durable contents. *)
Definition psycopg2_connect : M unit :=
  store_call Connect (fun w => inr (set_session (Some (committed w)) w)).

(** [cur = conn.cursor()]. *)
Definition conn_cursor : M unit :=
  store_call Cursor
    (fun w => match session w with
              | Some _ => inr w
              | None => inl InterfaceError
              end).

(** [cur.execute(s)]: inside the transaction of the connection. *)
Definition cur_execute (s : statement) : M unit :=
  store_call (Execute s)
    (fun w =>
       match session w with
       | None => inl InterfaceError
       | Some db =>
           let w' := match s with
                     | InsertObservation _ _ _ _ _ => set_serial (serial w + 1) w
                     | _ => w
                     end in
           match run_statement s (serial w) db with
           | inr db' => inr (set_session (Some db') w')
           | inl err => inl err
           end
       end).

(** [conn.commit()]: what the connection sees becomes durable. *)
Definition conn_commit : M unit :=
  store_call Commit
    (fun w => match session w with
              | Some db => inr (set_committed db w)
              | None => inl InterfaceError
              end).

(** [cur.close()]. *)
Definition cur_close : M unit :=
  store_call CursorClose (fun w => inr w).

(** [conn.close()]: whatever was not committed is gone. *)
Definition conn_close : M unit :=
  store_call ConnClose (fun w => inr (set_session None w)).

(** ** main.py *)

Definition APPIDS : list (Z * string) :=
  [ (730, "Counter-Strike 2");
    (570, "Dota 2");
    (440, "Team Fortress 2");
    (578080, "PUBG");
    (1172470, "Apex Legends");
    (2767030, "Marvel Rivals") ].

(** [init_db] reads the module-level mapping; it is a parameter here, so
    that runs under different configurations can be compared. *)
Definition init_db (appids : list (Z * string)) : M unit :=
  psycopg2_connect ;;
  conn_cursor ;;
  cur_execute CreateGames ;;
  cur_execute CreatePlayerCounts ;;
  for_each appids (fun '(appid, name) => cur_execute (InsertGame appid name)) ;;
  conn_commit ;;
  cur_close ;;
  conn_close.

Definition get_current_player_count (appid : Z) : M value :=
  try_except
    (response <- requests_get PlayerCountAPI appid ;;
     data <- response_json response ;;
     r <- lift (subscript data "response") ;;
     lift (dict_get r "player_count" (VInt 0)))
    (fun e => print (PlayerCountError appid e) ;; ret (VInt 0)).

Definition no_sale : sale :=
  {| on_sale := false; discount_percent := VInt 0;
     original_price := VNone; final_price := VNone |}.

Definition get_sale_info (appid : Z) : M sale :=
  try_except
    (response <- requests_get AppDetailsAPI appid ;;
     data <- response_json response ;;
     app_data <- lift (subscript data (str appid)) ;;
     success <- lift (subscript app_data "success") ;;
     if truthy success then
       details <- lift (subscript app_data "data") ;;
       has_price <- lift (contains "price_overview" details) ;;
       if (has_price : bool) then
         price <- lift (subscript details "price_overview") ;;
         d <- lift (subscript price "discount_percent") ;;
         positive <- lift (gt_zero d) ;;
         discount <- lift (subscript price "discount_percent") ;;
         initial <- lift (subscript price "initial") ;;
         final <- lift (subscript price "final") ;;
         ret {| on_sale := positive; discount_percent := discount;
                original_price := initial; final_price := final |}
       else ret no_sale
     else ret no_sale)
    (fun e => print (SaleInfoError appid e) ;; ret no_sale).

Definition get_estimated_owners (appid : Z) : M value :=
  try_except
    (response <- requests_get SteamSpyAPI appid ;;
     data <- response_json response ;;
     lift (dict_get data "owners" (VStr "unknown")))
    (fun e => print (OwnersError appid e) ;; ret (VStr "unknown")).

Definition log_player_data (appid : Z) (count : value) (sale_info : sale)
    (owners : value) : M unit :=
  ts <- time_time ;;
  psycopg2_connect ;;
  conn_cursor ;;
  cur_execute (InsertObservation appid ts count sale_info owners) ;;
  conn_commit ;;
  cur_close ;;
  conn_close.

(** The body of the loop of [track_games]. *)
Definition track_game (appid : Z) (name : string) : M unit :=
  print (Tracking name appid) ;;
  count <- get_current_player_count appid ;;
  sale_info <- get_sale_info appid ;;
  owners <- get_estimated_owners appid ;;
  log_player_data appid count sale_info owners ;;
  print (Players count) ;;
  print (OnSale (on_sale sale_info) (discount_percent sale_info)) ;;
  print (Price (final_price sale_info) (original_price sale_info)) ;;
  print (Owners owners).

Definition track_games (appid_map : list (Z * string)) : M unit :=
  for_each appid_map (fun '(appid, name) => track_game appid name).

Definition main : M unit :=
  init_db APPIDS ;;
  track_games APPIDS.

(** ** Sample worlds, for running the model on concrete inputs *)

Definition empty_db : database := {| games := None; player_counts := None |}.

Definition body (v : value) : result response := Ok {| json := Ok v |}.

(** Every request fails on the network. *)
Definition net_down (ep : endpoint) (appid : Z) : result response :=
  Raise ConnectionError.

(** Every request is answered with a body that is not JSON. *)
Definition net_garbled (ep : endpoint) (appid : Z) : result response :=
  Ok {| json := Raise JSONDecodeError |}.

Definition price_block (percent initial final : Z) : value :=
  VDict [("discount_percent", VInt percent); ("initial", VInt initial);
         ("final", VInt final)].

Definition details_body (appid : Z) (success : bool) (data : list (string * value))
    : value :=
  VDict [(str appid, VDict [("success", VBool success); ("data", VDict data)])].

(** The answers of the examples: 1234 players, half price, an owners range. *)
Definition net_steam (ep : endpoint) (appid : Z) : result response :=
  match ep with
  | PlayerCountAPI =>
      body (VDict [("response", VDict [("player_count", VInt 1234)])])
  | AppDetailsAPI =>
      body (details_body appid true [("price_overview", price_block 50 1999 999)])
  | SteamSpyAPI =>
      body (VDict [("owners", VStr "1,000,000 .. 2,000,000")])
  end.

(** Answers that are well-formed JSON with the fields left out. *)
Definition net_bare (ep : endpoint) (appid : Z) : result response :=
  match ep with
  | PlayerCountAPI => body (VDict [("response", VDict [])])
  | AppDetailsAPI => body (details_body appid true [])
  | SteamSpyAPI => body (VDict [])
  end.

(** Well-formed JSON of another shape: no "response" key, a lookup that
    failed, a list instead of an object. *)
Definition net_other (ep : endpoint) (appid : Z) : result response :=
  match ep with
  | PlayerCountAPI => body (VDict [])
  | AppDetailsAPI => body (details_body appid false [])
  | SteamSpyAPI => body (VList [])
  end.

(** A negative count in an otherwise regular answer. *)
Definition net_negative (ep : endpoint) (appid : Z) : result response :=
  match ep with
  | PlayerCountAPI =>
      body (VDict [("response", VDict [("player_count", VInt (-5))])])
  | _ => net_steam ep appid
  end.

Definition world_of (n : endpoint -> Z -> result response) (fs : list bool)
    (db : database) : world :=
  {| net := n; clock := fun _ => 1700000000; faults := fs; serial := 1;
     committed := db; session := None; log := [] |}.

(** A store where [init_db] has run. *)
Definition ready_db : database :=
  {| games := Some APPIDS; player_counts := Some [] |}.

(** A store that knows game 730 under an older name. *)
Definition renamed_db : database :=
  {| games := Some [(730, "Counter-Strike: Global Offensive")];
     player_counts := Some [] |}.

(** Nothing stored yet and every store call goes through. *)
Definition fresh_world : world := world_of net_down [] empty_db.

(** The store fails the sixth driver call: the second insert of
    [init_db]. *)
Definition failing_world : world :=
  world_of net_down [false; false; false; false; false; true] empty_db.

Definition renamed_world : world := world_of net_down [] renamed_db.

(** ** Reading the store and the trace *)

Definition rows_of (db : database) : list (Z * string) :=
  match games db with
  | Some rows => rows
  | None => []
  end.

Definition observations (db : database) : list observation :=
  match player_counts db with
  | Some obs => obs
  | None => []
  end.

(** The rows of [games] with a given id, and how many there are. *)
Definition rows_for (appid : Z) (rows : list (Z * string)) : list (Z * string) :=
  filter (fun r => fst r =? appid) rows.

Definition count_game (appid : Z) (rows : list (Z * string)) : nat :=
  List.length (rows_for appid rows).

(** The constraint of [id INTEGER PRIMARY KEY]. *)
Definition primary_key (rows : list (Z * string)) : Prop :=
  NoDup (map fst rows).

Definition nonneg_int (v : value) : bool :=
  match v with
  | VInt z => 0 <=? z
  | _ => false
  end.

(** The driver calls [init_db] makes up to the commit when nothing
    fails. *)
Definition insert_event (g : Z * string) : event :=
  Store (Execute (InsertGame (fst g) (snd g))).

Definition setup_trace (appids : list (Z * string)) : list event :=
  [Store Connect; Store Cursor; Store (Execute CreateGames);
   Store (Execute CreatePlayerCounts)] ++ map insert_event appids.

(** What [init_db] makes of a store: the tables exist, and [games] has
    the configured rows inserted in order. *)
Definition initialised (appids : list (Z * string)) (db db' : database) : Prop :=
  games db' = Some (fold_left insert_game appids (rows_of db)) /\
  player_counts db' = Some (observations db).

(** A driver call that returned and was not a commit. *)
Definition is_quiet (e : event) : Prop :=
  match e with
  | Store Commit => False
  | Store _ => True
  | _ => False
  end.

(** A call of [conn.commit()], whether it returned or raised. *)
Definition is_commit (e : event) : bool :=
  match e with
  | Store Commit => true
  | StoreFailed Commit => true
  | _ => false
  end.

Definition count_commits (trace : list event) : nat :=
  List.length (filter is_commit trace).

(** The identifier a request or an inserted observation is about. *)
Definition event_appid (e : event) : option Z :=
  match e with
  | Get _ appid => Some appid
  | Store (Execute (InsertObservation appid _ _ _ _)) => Some appid
  | StoreFailed (Execute (InsertObservation appid _ _ _ _)) => Some appid
  | _ => None
  end.

Definition about (ids : list Z) (e : event) : Prop :=
  match event_appid e with
  | Some appid => In appid ids
  | None => True
  end.

(** [m] only adds events that satisfy [P] to the trace. *)
Definition emits {A : Type} (P : event -> Prop) (m : M A) : Prop :=
  forall w r w', m w = (r, w') ->
    exists new, log w' = log w ++ new /\ Forall P new.

(** [m] raises only out of a failed driver call: the exception is of
    the store tier and the failed call is the last thing in the trace. *)
Definition store_abort {A : Type} (m : M A) : Prop :=
  forall w e w', m w = (Raise e, w') ->
    store_tier e = true /\
    exists done op, log w' = done ++ [StoreFailed op].

(** The store fails the seventh driver call: after the six calls of the
    first run of the Recorder, the connect of the second. *)
Definition second_record_fails : world :=
  world_of net_down [false; false; false; false; false; false; true] ready_db.

(** The world after a run of events has been written to the trace. *)
Definition record_events (es : list event) (w : world) : world :=
  fold_left (fun w' e => record_event e w') es w.

Definition is_get (e : event) : bool :=
  match e with
  | Get _ _ => true
  | _ => false
  end.

(** The three requests of the loop body for one game, in its order. *)
Definition requests_for (g : Z * string) : list event :=
  [Get PlayerCountAPI (fst g); Get AppDetailsAPI (fst g);
   Get SteamSpyAPI (fst g)].

(** What a collector writes after its request: nothing, or the one
    diagnostic of its handler. *)
Definition diagnostic (msg : exn -> message) (tail : list event) : Prop :=
  tail = [] \/ exists e, tail = [Print (msg e)].

(** The driver calls of the Recorder when nothing fails. *)
Definition recorder_trace (s : statement) : list event :=
  [Store Connect; Store Cursor; Store (Execute s); Store Commit;
   Store CursorClose; Store ConnClose].

(** The statement the Recorder executes when called in [w]. *)
Definition insert_of (appid : Z) (count : value) (sale_info : sale)
    (owners : value) (w : world) : statement :=
  InsertObservation appid (clock w (List.length (log w))) count sale_info owners.

(** The durable store of [w'] is that of [w] with one more observation:
    the values given, the time read in [w], the next id of the sequence. *)
Definition recorded (appid : Z) (count : value) (sale_info : sale)
    (owners : value) (w w' : world) : Prop :=
  exists obs rows,
    player_counts (committed w) = Some obs /\
    games (committed w) = Some rows /\
    has_game appid rows = true /\
    committed w'
    = {| games := Some rows;
         player_counts :=
           Some (obs ++ [new_row (serial w) appid
                           (clock w (List.length (log w)))
                           count sale_info owners]) |}.

(** The store fails the fifth driver call: in a run of the Recorder,
    the close of the cursor, after the commit. *)
Definition close_fails : world :=
  world_of net_down [false; false; false; false; true] ready_db.

(** [m] does not close an open connection. *)
Definition stays_open {A : Type} (m : M A) : Prop :=
  forall w r w', session w <> None -> m w = (r, w') -> session w' <> None.

(** When [m] raises, an open connection is still open. *)
Definition open_when_raised {A : Type} (m : M A) : Prop :=
  forall w e w',
    session w <> None -> m w = (Raise e, w') -> session w' <> None.

(** The sale record an observation was made from. *)
Definition row_sale (o : observation) : sale :=
  {| on_sale := row_on_sale o;
     discount_percent := row_discount_percent o;
     original_price := row_original_price o;
     final_price := row_final_price o |}.

(** Observation [o] is what tracking game [g] in [w] has to record: the
    identifier of [g] and what the three collectors return for it. *)
Definition tracked (w : world) (g : Z * string) (o : observation) : Prop :=
  game_id o = fst g /\
  fst (get_current_player_count (fst g) w) = Ok (player_count o) /\
  fst (get_sale_info (fst g) w) = Ok (row_sale o) /\
  fst (get_estimated_owners (fst g) w) = Ok (estimated_owners o).

(** World [c] is [w] after one request to [ep] for [appid]: the trace
    has the request, and after it the diagnostic [msg] or nothing; all
    the rest is as in [w]. *)
Definition requested (ep : endpoint) (appid : Z) (msg : exn -> message)
    (w c : world) : Prop :=
  exists tail,
    diagnostic msg tail /\
    log c = log w ++ Get ep appid :: tail /\
    committed c = committed w /\
    session c = session w /\
    faults c = faults w /\
    serial c = serial w /\
    net c = net w.

(** [m] leaves the network as it is. *)
Definition keeps_net {A : Type} (m : M A) : Prop :=
  forall w r w', m w = (r, w') -> net w' = net w.

(** [m] leaves the durable games alone and only adds to the durable
    observations. *)
Definition appends {A : Type} (m : M A) : Prop :=
  forall w r w', m w = (r, w') ->
    games (committed w') = games (committed w) /\
    exists extra,
      observations (committed w') = observations (committed w) ++ extra.

(** The store fails the fourteenth driver call: after two full runs of
    the Recorder, the cursor of the third. *)
Definition third_record_fails : world :=
  world_of net_steam
    [false; false; false; false; false; false;
     false; false; false; false; false; false; false; true] ready_db.

(** The store fails none of the driver calls to come. *)
Definition no_fault (w : world) : Prop := ~ In true (faults w).

(** From every world that satisfies [P], [m] returns, in a world that
    satisfies [Q]. *)
Definition returns {A : Type} (P : world -> Prop) (m : M A)
    (Q : world -> Prop) : Prop :=
  forall w, P w -> exists a w', m w = (Ok a, w') /\ Q w'.

(** A store that can take an observation for each of [ids]: the table
    of observations exists and every id has its game. *)
Definition takes (ids : list Z) (db : database) : Prop :=
  player_counts db <> None /\
  forall appid, In appid ids -> has_game appid (rows_of db) = true.

(** The worlds a run of the Recorder goes through when nothing fails:
    outside a transaction, and inside one. *)
Definition ready (ids : list Z) (w : world) : Prop :=
  no_fault w /\ takes ids (committed w).

Definition in_session (ids : list Z) (w : world) : Prop :=
  no_fault w /\ exists db, session w = Some db /\ takes ids db.

(** The worlds [init_db] goes through when nothing fails: connected, and
    connected with the table of games in sight. *)
Definition connected (w : world) : Prop :=
  no_fault w /\ exists db, session w = Some db.

Definition sees_games (w : world) : Prop :=
  no_fault w /\ exists db rows, session w = Some db /\ games db = Some rows.

(** ** Tactics for running a computation symbolically *)

Ltac run :=
  cbv [get_current_player_count get_sale_info get_estimated_owners
       try_except bind ret lift requests_get response_json print emit];
  cbn [fst snd net json record_event].

Ltac split_match :=
  match goal with
  | |- context [match ?x with _ => _ end] =>
      lazymatch x with
      | context [match _ with _ => _ end] => fail
      | _ => destruct x eqn:?
      end
  end.

(** ** The collectors *)

Lemma get_current_player_count_total (appid : Z) (w : world) :
  exists v, fst (get_current_player_count appid w) = Ok v.
Proof.
  run. repeat (split_match; cbn [fst subscript dict_get]); eauto.
Qed.

Lemma get_sale_info_total (appid : Z) (w : world) :
  exists s, fst (get_sale_info appid w) = Ok s.
Proof.
  run. repeat (split_match; cbn [fst]); eauto.
Qed.

Lemma get_estimated_owners_total (appid : Z) (w : world) :
  exists v, fst (get_estimated_owners appid w) = Ok v.
Proof.
  run. repeat (split_match; cbn [fst]); eauto.
Qed.

(** C1.  The player-count collector returns the [player_count] field of
    the response object when it is there, 0 when the field is absent, and
    0 on every exception of the try block: a failed request, a body that is
    not JSON, a missing "response" key, a "response" that is no object.  In
    no case does it raise. *)
Theorem get_current_player_count_spec (appid : Z) (w : world) :
  (forall d r v,
      net w PlayerCountAPI appid = body (VDict d) ->
      dict_lookup "response" d = Some (VDict r) ->
      dict_lookup "player_count" r = Some v ->
      fst (get_current_player_count appid w) = Ok v) /\
  (forall d r,
      net w PlayerCountAPI appid = body (VDict d) ->
      dict_lookup "response" d = Some (VDict r) ->
      dict_lookup "player_count" r = None ->
      fst (get_current_player_count appid w) = Ok (VInt 0)) /\
  (forall e,
      net w PlayerCountAPI appid = Raise e ->
      fst (get_current_player_count appid w) = Ok (VInt 0)) /\
  (forall e,
      net w PlayerCountAPI appid = Ok {| json := Raise e |} ->
      fst (get_current_player_count appid w) = Ok (VInt 0)) /\
  (forall data e,
      net w PlayerCountAPI appid = body data ->
      subscript data "response" = Raise e ->
      fst (get_current_player_count appid w) = Ok (VInt 0)) /\
  (forall data r e,
      net w PlayerCountAPI appid = body data ->
      subscript data "response" = Ok r ->
      dict_get r "player_count" (VInt 0) = Raise e ->
      fst (get_current_player_count appid w) = Ok (VInt 0)) /\
  (exists v, fst (get_current_player_count appid w) = Ok v).
Proof.
  repeat split; intros;
    try apply get_current_player_count_total;
    run; unfold body in *;
    repeat match goal with
           | H : net w _ _ = _ |- _ => rewrite H; clear H; cbn [json fst subscript dict_get]
           | H : dict_lookup _ _ = _ |- _ => rewrite H; clear H; cbn [json fst subscript dict_get]
           | H : subscript _ _ = _ |- _ => rewrite H; clear H; cbn [fst]
           | H : dict_get _ _ _ = _ |- _ => rewrite H; clear H; cbn [fst]
           end;
    reflexivity.
Qed.

Lemma get_current_player_count_spec_witness :
  fst (get_current_player_count 730 (world_of net_steam [] empty_db)) = Ok (VInt 1234) /\
  fst (get_current_player_count 730 (world_of net_bare [] empty_db)) = Ok (VInt 0) /\
  fst (get_current_player_count 730 (world_of net_down [] empty_db)) = Ok (VInt 0) /\
  fst (get_current_player_count 730 (world_of net_garbled [] empty_db)) = Ok (VInt 0) /\
  fst (get_current_player_count 730 (world_of net_other [] empty_db)) = Ok (VInt 0).
Proof.
  split; [| split; [| split; [| split]]].
  - destruct (get_current_player_count_spec 730 (world_of net_steam [] empty_db))
      as (H & _).
    apply (H [("response", VDict [("player_count", VInt 1234)])]
             [("player_count", VInt 1234)]); reflexivity.
  - destruct (get_current_player_count_spec 730 (world_of net_bare [] empty_db))
      as (_ & H & _).
    apply (H [("response", VDict [])] []); reflexivity.
  - destruct (get_current_player_count_spec 730 (world_of net_down [] empty_db))
      as (_ & _ & H & _).
    apply (H ConnectionError); reflexivity.
  - destruct (get_current_player_count_spec 730 (world_of net_garbled [] empty_db))
      as (_ & _ & _ & H & _).
    apply (H JSONDecodeError); reflexivity.
  - destruct (get_current_player_count_spec 730 (world_of net_other [] empty_db))
      as (_ & _ & _ & _ & H & _).
    apply (H (VDict []) (KeyError "response")); reflexivity.
Defined.

Ltac use_facts :=
  unfold body in *;
  repeat match goal with
         | H : net _ _ _ = _ |- _ => rewrite H; clear H
         | H : dict_lookup _ _ = _ |- _ => rewrite H; clear H
         | H : subscript _ _ = _ |- _ => rewrite H; clear H
         | H : dict_get _ _ _ = _ |- _ => rewrite H; clear H
         | H : truthy _ = _ |- _ => rewrite H; clear H
         | H : gt_zero _ = _ |- _ => rewrite H; clear H
         | H : contains _ _ = _ |- _ => rewrite H; clear H
         | _ => progress cbn [json fst subscript dict_get contains]
         end.

(** C2.  When the details response holds, under the identifier as text,
    an object whose [success] flag is true and whose [data] has a
    [price_overview] block with the fields [discount_percent], [initial]
    and [final], the sale collector returns the record with [on_sale] the
    outcome of [discount_percent > 0] and the three fields copied. *)
Theorem get_sale_info_price_block
    (appid : Z) (w : world)
    (data app_data details price : list (string * value))
    (success percent initial final : value) (positive : bool) :
  net w AppDetailsAPI appid = body (VDict data) ->
  dict_lookup (str appid) data = Some (VDict app_data) ->
  dict_lookup "success" app_data = Some success ->
  truthy success = true ->
  dict_lookup "data" app_data = Some (VDict details) ->
  dict_lookup "price_overview" details = Some (VDict price) ->
  dict_lookup "discount_percent" price = Some percent ->
  gt_zero percent = Ok positive ->
  dict_lookup "initial" price = Some initial ->
  dict_lookup "final" price = Some final ->
  fst (get_sale_info appid w)
  = Ok {| on_sale := positive; discount_percent := percent;
          original_price := initial; final_price := final |}.
Proof.
  intros. run. use_facts. reflexivity.
Qed.

Lemma get_sale_info_price_block_witness :
  fst (get_sale_info 730 (world_of net_steam [] empty_db))
  = Ok {| on_sale := true; discount_percent := VInt 50;
          original_price := VInt 1999; final_price := VInt 999 |}.
Proof.
  apply (get_sale_info_price_block 730 (world_of net_steam [] empty_db)
           [("730", VDict [("success", VBool true);
                           ("data", VDict [("price_overview", price_block 50 1999 999)])])]
           [("success", VBool true);
            ("data", VDict [("price_overview", price_block 50 1999 999)])]
           [("price_overview", price_block 50 1999 999)]
           [("discount_percent", VInt 50); ("initial", VInt 1999); ("final", VInt 999)]
           (VBool true) (VInt 50) (VInt 1999) (VInt 999) true);
    reflexivity.
Defined.

(** C3.  The sale collector returns exactly the neutral default record
    when the lookup did not succeed ([success] false), when [data] has no
    price block, and when the request or the parse raised; it never
    raises. *)
Theorem get_sale_info_default (appid : Z) (w : world) :
  (forall data app_data success,
      net w AppDetailsAPI appid = body (VDict data) ->
      dict_lookup (str appid) data = Some (VDict app_data) ->
      dict_lookup "success" app_data = Some success ->
      truthy success = false ->
      fst (get_sale_info appid w) = Ok no_sale) /\
  (forall data app_data success details,
      net w AppDetailsAPI appid = body (VDict data) ->
      dict_lookup (str appid) data = Some (VDict app_data) ->
      dict_lookup "success" app_data = Some success ->
      truthy success = true ->
      dict_lookup "data" app_data = Some (VDict details) ->
      dict_lookup "price_overview" details = None ->
      fst (get_sale_info appid w) = Ok no_sale) /\
  (forall e,
      net w AppDetailsAPI appid = Raise e ->
      fst (get_sale_info appid w) = Ok no_sale) /\
  (forall e,
      net w AppDetailsAPI appid = Ok {| json := Raise e |} ->
      fst (get_sale_info appid w) = Ok no_sale) /\
  (forall data e,
      net w AppDetailsAPI appid = body data ->
      subscript data (str appid) = Raise e ->
      fst (get_sale_info appid w) = Ok no_sale) /\
  (exists s, fst (get_sale_info appid w) = Ok s).
Proof.
  repeat split; intros;
    try apply get_sale_info_total;
    run; use_facts; reflexivity.
Qed.

Lemma get_sale_info_default_witness :
  fst (get_sale_info 730 (world_of net_other [] empty_db)) = Ok no_sale /\
  fst (get_sale_info 730 (world_of net_bare [] empty_db)) = Ok no_sale /\
  fst (get_sale_info 730 (world_of net_down [] empty_db)) = Ok no_sale /\
  fst (get_sale_info 730 (world_of net_garbled [] empty_db)) = Ok no_sale.
Proof.
  split; [| split; [| split]].
  - destruct (get_sale_info_default 730 (world_of net_other [] empty_db))
      as (H & _).
    apply (H [("730", VDict [("success", VBool false); ("data", VDict [])])]
             [("success", VBool false); ("data", VDict [])] (VBool false));
      reflexivity.
  - destruct (get_sale_info_default 730 (world_of net_bare [] empty_db))
      as (_ & H & _).
    apply (H [("730", VDict [("success", VBool true); ("data", VDict [])])]
             [("success", VBool true); ("data", VDict [])] (VBool true) []);
      reflexivity.
  - destruct (get_sale_info_default 730 (world_of net_down [] empty_db))
      as (_ & _ & H & _).
    apply (H ConnectionError); reflexivity.
  - destruct (get_sale_info_default 730 (world_of net_garbled [] empty_db))
      as (_ & _ & _ & H & _).
    apply (H JSONDecodeError); reflexivity.
Defined.

(** C4.  The ownership collector returns the [owners] field of the
    response object when it is there, and the string "unknown" when the
    field is absent and on every exception of the try block: a failed
    request, a body that is not JSON, a body that is no object.  It never
    raises. *)
Theorem get_estimated_owners_spec (appid : Z) (w : world) :
  (forall d v,
      net w SteamSpyAPI appid = body (VDict d) ->
      dict_lookup "owners" d = Some v ->
      fst (get_estimated_owners appid w) = Ok v) /\
  (forall d,
      net w SteamSpyAPI appid = body (VDict d) ->
      dict_lookup "owners" d = None ->
      fst (get_estimated_owners appid w) = Ok (VStr "unknown")) /\
  (forall e,
      net w SteamSpyAPI appid = Raise e ->
      fst (get_estimated_owners appid w) = Ok (VStr "unknown")) /\
  (forall e,
      net w SteamSpyAPI appid = Ok {| json := Raise e |} ->
      fst (get_estimated_owners appid w) = Ok (VStr "unknown")) /\
  (forall data e,
      net w SteamSpyAPI appid = body data ->
      dict_get data "owners" (VStr "unknown") = Raise e ->
      fst (get_estimated_owners appid w) = Ok (VStr "unknown")) /\
  (exists v, fst (get_estimated_owners appid w) = Ok v).
Proof.
  repeat split; intros;
    try apply get_estimated_owners_total;
    run; use_facts; reflexivity.
Qed.

Lemma get_estimated_owners_spec_witness :
  fst (get_estimated_owners 730 (world_of net_steam [] empty_db))
  = Ok (VStr "1,000,000 .. 2,000,000") /\
  fst (get_estimated_owners 730 (world_of net_bare [] empty_db)) = Ok (VStr "unknown") /\
  fst (get_estimated_owners 730 (world_of net_down [] empty_db)) = Ok (VStr "unknown") /\
  fst (get_estimated_owners 730 (world_of net_garbled [] empty_db)) = Ok (VStr "unknown") /\
  fst (get_estimated_owners 730 (world_of net_other [] empty_db)) = Ok (VStr "unknown").
Proof.
  split; [| split; [| split; [| split]]].
  - destruct (get_estimated_owners_spec 730 (world_of net_steam [] empty_db))
      as (H & _).
    apply (H [("owners", VStr "1,000,000 .. 2,000,000")]); reflexivity.
  - destruct (get_estimated_owners_spec 730 (world_of net_bare [] empty_db))
      as (_ & H & _).
    apply (H []); reflexivity.
  - destruct (get_estimated_owners_spec 730 (world_of net_down [] empty_db))
      as (_ & _ & H & _).
    apply (H ConnectionError); reflexivity.
  - destruct (get_estimated_owners_spec 730 (world_of net_garbled [] empty_db))
      as (_ & _ & _ & H & _).
    apply (H JSONDecodeError); reflexivity.
  - destruct (get_estimated_owners_spec 730 (world_of net_other [] empty_db))
      as (_ & _ & _ & _ & H & _).
    apply (H (VList []) AttributeError); reflexivity.
Defined.

(** C9.  On every input the sale collector returns a record, and in it
    [on_sale] is the outcome of [discount_percent > 0]. *)
Theorem get_sale_info_on_sale_invariant (appid : Z) (w : world) :
  exists s,
    fst (get_sale_info appid w) = Ok s /\
    gt_zero (discount_percent s) = Ok (on_sale s).
Proof.
  run.
  repeat (split_match; cbn [fst]);
    eexists; (split; [reflexivity |]);
    cbn [discount_percent on_sale no_sale];
    first [reflexivity | congruence].
Qed.

(** ** Running a sequence of statements *)

Lemma bind_inv {A B : Type} (m : M A) (k : A -> M B) (w : world)
    (r : result B) (w' : world) :
  bind m k w = (r, w') ->
  (exists e, m w = (Raise e, w') /\ r = Raise e) \/
  (exists a w1, m w = (Ok a, w1) /\ k a w1 = (r, w')).
Proof.
  unfold bind. destruct (m w) as [[a | e] w1]; intros H.
  - right. eauto.
  - left. inversion H; subst. eauto.
Qed.

Lemma store_call_inv (op : store_op) (act : world -> db_error + world)
    (w : world) (r : result unit) (w' : world) :
  store_call op act w = (r, w') ->
  (r = Ok tt /\
   exists w1, act (set_faults (tl (faults w)) w) = inr w1 /\
              w' = record_event (Store op) w1) \/
  (exists k, r = Raise (DatabaseError k) /\
             w' = record_event (StoreFailed op) (set_faults (tl (faults w)) w)).
Proof.
  unfold store_call. intros H.
  destruct (faults w) as [| [|] fs];
    try (inversion H; subst; right; eauto; fail);
    destruct (act _) as [err | w1] eqn:Hact;
    inversion H; subst; eauto.
Qed.

Lemma database_ext (a b : database) :
  games a = games b -> player_counts a = player_counts b -> a = b.
Proof.
  destruct a, b; cbn; intros; subst; reflexivity.
Qed.

(** One inversion step along a chain of binds. *)
Ltac chain H :=
  let e := fresh "e" in
  let u := fresh "u" in
  let w1 := fresh "w" in
  let Hm := fresh "Hm" in
  apply bind_inv in H;
  destruct H as [(e & Hm & ?) | (u & w1 & Hm & H)].

Ltac call H :=
  let k := fresh "k" in
  let w1 := fresh "w" in
  let Hact := fresh "Hact" in
  apply store_call_inv in H;
  destruct H as [(? & w1 & Hact & ?) | (k & ? & ?)].

Ltac split_hyp H :=
  match type of H with
  | context [match ?x with _ => _ end] =>
      lazymatch x with
      | context [match _ with _ => _ end] => fail
      | _ => destruct x eqn:?
      end
  end.

Ltac nope :=
  match goal with
  | H : Ok _ = Raise _ |- _ => discriminate H
  | H : Raise _ = Ok _ |- _ => discriminate H
  | H : inl _ = inr _ |- _ => discriminate H
  | H : (Raise _, _) = (Ok _, _) |- _ => discriminate H
  | H : (Ok _, _) = (Raise _, _) |- _ => discriminate H
  end.

(** A call of the Recorder that returns has made one more observation
    durable, with the values it was given. *)
Lemma log_player_data_ok (appid : Z) (count : value) (sale_info : sale)
    (owners : value) (w w' : world) :
  log_player_data appid count sale_info owners w = (Ok tt, w') ->
  exists id ts obs,
    player_counts (committed w)  = Some obs /\
    player_counts (committed w')
    = Some (obs ++ [new_row id appid ts count sale_info owners]).
Proof.
  unfold log_player_data. intros H.
  chain H; [nope |].
  cbv [time_time] in Hm. inversion Hm; subst; clear Hm.
  chain H; [nope |]. unfold psycopg2_connect in Hm. call Hm; [| nope].
  inversion Hact; subst; clear Hact.
  chain H; [nope |]. unfold conn_cursor in Hm. call Hm; [| nope].
  cbn in Hact. inversion Hact; subst; clear Hact.
  chain H; [nope |]. unfold cur_execute in Hm. call Hm; [| nope].
  cbn in Hact. repeat split_hyp Hact; try nope.
  inversion Hact; subst; clear Hact.
  chain H; [nope |]. unfold conn_commit in Hm. call Hm; [| nope].
  cbn in Hact. inversion Hact; subst; clear Hact.
  chain H; [nope |]. unfold cur_close in Hm. call Hm; [| nope].
  inversion Hact; subst; clear Hact.
  unfold conn_close in H. call H; [| nope].
  inversion Hact; subst; clear Hact.
  cbn. eauto.
Qed.

(** C8, as stated, fails: the collector hands on whatever the response
    has in [player_count], and the Recorder stores it.  Here the answer
    carries -5, and -5 is what ends up in the observation. *)
Lemma player_count_negative_counterexample :
  fst (get_current_player_count 730 (world_of net_negative [] ready_db))
  = Ok (VInt (-5)) /\
  nonneg_int (VInt (-5)) = false /\
  map player_count
    (observations
       (committed
          (snd (track_games [(730, "Counter-Strike 2")]
                  (world_of net_negative [] ready_db)))))
  = [VInt (-5)] /\
  ~ (forall appid w v,
        fst (get_current_player_count appid w) = Ok v -> nonneg_int v = true).
Proof.
  split; [reflexivity |].
  split; [reflexivity |].
  split; [vm_compute; reflexivity |].
  intros H.
  specialize (H 730 (world_of net_negative [] ready_db) (VInt (-5)) eq_refl).
  discriminate H.
Qed.

(** C8, amended.  When the [player_count] field of the response, if
    there is one, is a non-negative integer, the collector returns a
    non-negative integer (0 when the fetch failed or the field is absent),
    and a call of the Recorder that succeeds stores that very value in
    the new observation. *)
Theorem player_count_nonneg_when_field_is (appid : Z) (w : world) :
  (forall d r x,
      net w PlayerCountAPI appid = body (VDict d) ->
      dict_lookup "response" d = Some (VDict r) ->
      dict_lookup "player_count" r = Some x ->
      nonneg_int x = true) ->
  exists v,
    fst (get_current_player_count appid w) = Ok v /\
    nonneg_int v = true /\
    forall sale_info owners w1 w2,
      log_player_data appid v sale_info owners w1 = (Ok tt, w2) ->
      exists obs row,
        player_counts (committed w1) = Some obs /\
        player_counts (committed w2) = Some (obs ++ [row]) /\
        player_count row = v.
Proof.
  intros Hfield.
  assert (Hv : exists v, fst (get_current_player_count appid w) = Ok v /\
                         nonneg_int v = true).
  { revert Hfield. run. unfold body.
    destruct (net w PlayerCountAPI appid) as [[[data | e]] | e];
      cbn [json fst]; eauto.
    destruct data as [| | | | | | d]; cbn [subscript fst]; eauto.
    destruct (dict_lookup "response" d) as [r |] eqn:Hr; cbn [fst]; eauto.
    destruct r as [| | | | | | r]; cbn [dict_get fst]; eauto.
    destruct (dict_lookup "player_count" r) as [x |] eqn:Hx; cbn [fst]; eauto. }
  destruct Hv as (v & Hret & Hnonneg).
  exists v. repeat split; trivial.
  intros sale_info owners w1 w2 Hlog.
  destruct (log_player_data_ok _ _ _ _ _ _ Hlog) as (id & ts & obs & Hobs & Hobs').
  exists obs, (new_row id appid ts v sale_info owners). auto.
Qed.

Lemma player_count_nonneg_when_field_is_witness :
  exists v,
    fst (get_current_player_count 730 (world_of net_steam [] ready_db)) = Ok v /\
    nonneg_int v = true /\
    forall sale_info owners w1 w2,
      log_player_data 730 v sale_info owners w1 = (Ok tt, w2) ->
      exists obs row,
        player_counts (committed w1) = Some obs /\
        player_counts (committed w2) = Some (obs ++ [row]) /\
        player_count row = v.
Proof.
  apply (player_count_nonneg_when_field_is 730 (world_of net_steam [] ready_db)).
  intros d r x Hnet Hr Hx.
  cbn in Hnet. unfold body in Hnet. inversion Hnet; subst; clear Hnet.
  cbn in Hr. inversion Hr; subst; clear Hr.
  cbn in Hx. inversion Hx; subst; clear Hx.
  reflexivity.
Defined.

(** ** The driver calls, one by one *)

Lemma psycopg2_connect_inv (w : world) (r : result unit) (w' : world) :
  psycopg2_connect w = (r, w') ->
  committed w' = committed w /\
  ((r = Ok tt /\ log w' = log w ++ [Store Connect] /\
    session w' = Some (committed w)) \/
   (exists k, r = Raise (DatabaseError k) /\
              log w' = log w ++ [StoreFailed Connect])).
Proof.
  unfold psycopg2_connect. intros H. call H; subst.
  - inversion Hact; subst. cbn. intuition auto.
  - cbn. intuition eauto.
Qed.

Lemma conn_cursor_inv (w : world) (r : result unit) (w' : world) :
  conn_cursor w = (r, w') ->
  committed w' = committed w /\ session w' = session w /\
  ((r = Ok tt /\ log w' = log w ++ [Store Cursor]) \/
   (exists k, r = Raise (DatabaseError k) /\
              log w' = log w ++ [StoreFailed Cursor])).
Proof.
  unfold conn_cursor. intros H. call H; subst.
  - cbn in Hact. split_hyp Hact; try nope.
    inversion Hact; subst. cbn. intuition auto.
  - cbn. intuition eauto.
Qed.

Lemma cur_execute_inv (s : statement) (w : world) (r : result unit)
    (w' : world) (db : database) :
  cur_execute s w = (r, w') ->
  session w = Some db ->
  committed w' = committed w /\
  ((r = Ok tt /\ log w' = log w ++ [Store (Execute s)] /\
    exists db', run_statement s (serial w) db = inr db' /\
                session w' = Some db') \/
   (exists k, r = Raise (DatabaseError k) /\
              log w' = log w ++ [StoreFailed (Execute s)])).
Proof.
  unfold cur_execute. intros H Hs. call H; subst.
  - cbn in Hact. rewrite Hs in Hact.
    destruct (run_statement s (serial w) db) as [err | db'] eqn:Hrun;
      try nope.
    inversion Hact; subst. split.
    + destruct s; reflexivity.
    + left. repeat split; [destruct s; reflexivity |].
      exists db'. split; [reflexivity |]. destruct s; reflexivity.
  - cbn. intuition eauto.
Qed.

Lemma conn_commit_inv (w : world) (r : result unit) (w' : world)
    (db : database) :
  conn_commit w = (r, w') ->
  session w = Some db ->
  (r = Ok tt /\ committed w' = db /\ log w' = log w ++ [Store Commit]) \/
  (exists k, r = Raise (DatabaseError k) /\ committed w' = committed w /\
             log w' = log w ++ [StoreFailed Commit]).
Proof.
  unfold conn_commit. intros H Hs. call H; subst.
  - cbn in Hact. rewrite Hs in Hact. inversion Hact; subst. cbn. intuition auto.
  - cbn. intuition eauto.
Qed.

Lemma cur_close_inv (w : world) (r : result unit) (w' : world) :
  cur_close w = (r, w') ->
  committed w' = committed w /\
  ((r = Ok tt /\ log w' = log w ++ [Store CursorClose]) \/
   (exists k, r = Raise (DatabaseError k) /\
              log w' = log w ++ [StoreFailed CursorClose])).
Proof.
  unfold cur_close. intros H. call H; subst.
  - inversion Hact; subst. cbn. intuition auto.
  - cbn. intuition eauto.
Qed.

Lemma conn_close_inv (w : world) (r : result unit) (w' : world) :
  conn_close w = (r, w') ->
  committed w' = committed w /\
  ((r = Ok tt /\ log w' = log w ++ [Store ConnClose]) \/
   (exists k, r = Raise (DatabaseError k) /\
              log w' = log w ++ [StoreFailed ConnClose])).
Proof.
  unfold conn_close. intros H. call H; subst.
  - inversion Hact; subst. cbn. intuition auto.
  - cbn. intuition eauto.
Qed.

(** The loop of inserts of [init_db], run inside an open connection that
    sees the table [games]. *)
Lemma insert_loop_inv (appids : list (Z * string)) :
  forall (w : world) (r : result unit) (w' : world) (db : database)
         (rows : list (Z * string)),
    for_each appids
      (fun '(appid, name) => cur_execute (InsertGame appid name)) w = (r, w') ->
    session w = Some db ->
    games db = Some rows ->
    committed w' = committed w /\
    ((r = Ok tt /\ log w' = log w ++ map insert_event appids /\
      exists db', session w' = Some db' /\
                  games db' = Some (fold_left insert_game appids rows) /\
                  player_counts db' = player_counts db) \/
     (exists k done op,
         r = Raise (DatabaseError k) /\
         log w' = log w ++ done ++ [StoreFailed op] /\
         Forall is_quiet done)).
Proof.
  induction appids as [| [appid name] rest IH]; intros w r w' db rows H Hs Hg.
  - cbn in H. inversion H; subst. split; [reflexivity |]. left.
    rewrite app_nil_r. repeat split. exists db. auto.
  - cbn [for_each] in H. chain H.
    + destruct (cur_execute_inv _ _ _ _ _ Hm Hs) as (Hc & [(? & _) | (k & Hr & Hl)]);
        [subst; nope |].
      subst. split; [exact Hc |]. right.
      exists k, [], (Execute (InsertGame appid name)). auto.
    + destruct (cur_execute_inv _ _ _ _ _ Hm Hs)
        as (Hc & [(_ & Hl & db1 & Hrun & Hs1) | (k & Hr & _)]);
        [| nope].
      cbn in Hrun. rewrite Hg in Hrun. inversion Hrun; subst; clear Hrun.
      destruct (IH _ _ _ _ _ H Hs1 eq_refl)
        as (Hc' & [(Hr & Hl' & db' & Hs' & Hg' & Hp') | (k & done & op & Hr & Hl' & Hq)]).
      * split; [congruence |]. left. split; [exact Hr |]. split.
        -- rewrite Hl', Hl, <- app_assoc. reflexivity.
        -- exists db'. auto.
      * split; [congruence |]. right.
        exists k, (insert_event (appid, name) :: done), op.
        split; [exact Hr |]. split.
        -- rewrite Hl', Hl, <- app_assoc. reflexivity.
        -- constructor; [exact I | exact Hq].
Qed.

Lemma run_create_games (next_id : Z) (db : database) :
  exists db1,
    run_statement CreateGames next_id db = inr db1 /\
    games db1 = Some (rows_of db) /\
    player_counts db1 = player_counts db.
Proof.
  unfold rows_of. cbn. destruct (games db) as [rows |] eqn:Hg.
  - exists db. auto.
  - eexists. split; [reflexivity |]. auto.
Qed.

Lemma run_create_player_counts (next_id : Z) (db : database)
    (rows : list (Z * string)) :
  games db = Some rows ->
  exists db2,
    run_statement CreatePlayerCounts next_id db = inr db2 /\
    games db2 = Some rows /\
    player_counts db2 = Some (observations db).
Proof.
  intros Hg. unfold observations. cbn. rewrite Hg.
  destruct (player_counts db) as [obs |] eqn:Hp.
  - exists db. auto.
  - eexists. split; [reflexivity |]. auto.
Qed.

(** Every run of [init_db] is of one of three kinds: it returns, with
    the full trace and the store initialised; it raises at or before the
    commit, with nothing made durable; it raises in one of the two
    [close] calls, after the commit. *)
Lemma init_db_cases (appids : list (Z * string)) (w : world)
    (r : result unit) (w' : world) :
  init_db appids w = (r, w') ->
  exists new,
    log w' = log w ++ new /\
    ((r = Ok tt /\
      new = setup_trace appids ++ [Store Commit; Store CursorClose; Store ConnClose] /\
      initialised appids (committed w) (committed w')) \/
     (exists k done op,
         r = Raise (DatabaseError k) /\
         new = done ++ [StoreFailed op] /\
         Forall is_quiet done /\
         committed w' = committed w) \/
     (exists k,
         r = Raise (DatabaseError k) /\
         initialised appids (committed w) (committed w') /\
         (new = setup_trace appids ++ [Store Commit; StoreFailed CursorClose] \/
          new = setup_trace appids
                ++ [Store Commit; Store CursorClose; StoreFailed ConnClose]))).
Proof.
  unfold init_db. intros H.
  (* connect *)
  chain H.
  { destruct (psycopg2_connect_inv _ _ _ Hm) as (Hc & [(? & _) | (k & Hr & Hl)]);
      [nope |].
    subst. inversion Hr; subst. exists [StoreFailed Connect]. split; [exact Hl |].
    right; left. exists k, [], Connect. auto. }
  destruct (psycopg2_connect_inv _ _ _ Hm) as (Hc1 & [(_ & Hl1 & Hs1) | (k & ? & _)]);
    [| nope].
  clear Hm.
  (* cursor *)
  chain H.
  { destruct (conn_cursor_inv _ _ _ Hm) as (Hc & _ & [(? & _) | (k & Hr & Hl)]);
      [nope |].
    subst. inversion Hr; subst. exists [Store Connect; StoreFailed Cursor]. split.
    - rewrite Hl, Hl1, <- app_assoc. reflexivity.
    - right; left. exists k, [Store Connect], Cursor.
      split; [reflexivity | split; [reflexivity |]].
      split; [repeat constructor | congruence]. }
  destruct (conn_cursor_inv _ _ _ Hm) as (Hc2 & Hs2 & [(_ & Hl2) | (k & ? & _)]);
    [| nope].
  clear Hm. rewrite Hs1 in Hs2.
  (* CREATE TABLE games *)
  chain H.
  { destruct (cur_execute_inv _ _ _ _ _ Hm Hs2) as (Hc & [(? & _) | (k & Hr & Hl)]);
      [nope |].
    subst. inversion Hr; subst. exists [Store Connect; Store Cursor; StoreFailed (Execute CreateGames)].
    split.
    - rewrite Hl, Hl2, Hl1, <- !app_assoc. reflexivity.
    - right; left. exists k, [Store Connect; Store Cursor], (Execute CreateGames).
      split; [reflexivity | split; [reflexivity |]].
      split; [repeat constructor | congruence]. }
  destruct (cur_execute_inv _ _ _ _ _ Hm Hs2)
    as (Hc3 & [(_ & Hl3 & db1 & Hrun1 & Hs3) | (k & ? & _)]); [| nope].
  clear Hm.
  destruct (run_create_games (serial w1) (committed w)) as (db1' & Hrun1' & Hg1 & Hp1).
  rewrite Hrun1' in Hrun1. inversion Hrun1; subst db1'; clear Hrun1 Hrun1'.
  (* CREATE TABLE player_counts *)
  chain H.
  { destruct (cur_execute_inv _ _ _ _ _ Hm Hs3) as (Hc & [(? & _) | (k & Hr & Hl)]);
      [nope |].
    subst. inversion Hr; subst.
    exists [Store Connect; Store Cursor; Store (Execute CreateGames);
            StoreFailed (Execute CreatePlayerCounts)].
    split.
    - rewrite Hl, Hl3, Hl2, Hl1, <- !app_assoc. reflexivity.
    - right; left.
      exists k, [Store Connect; Store Cursor; Store (Execute CreateGames)],
        (Execute CreatePlayerCounts).
      split; [reflexivity | split; [reflexivity |]].
      split; [repeat constructor | congruence]. }
  destruct (cur_execute_inv _ _ _ _ _ Hm Hs3)
    as (Hc4 & [(_ & Hl4 & db2 & Hrun2 & Hs4) | (k & ? & _)]); [| nope].
  clear Hm.
  destruct (run_create_player_counts (serial w2) db1 _ Hg1)
    as (db2' & Hrun2' & Hg2 & Hp2).
  rewrite Hrun2' in Hrun2. inversion Hrun2; subst db2'; clear Hrun2 Hrun2'.
  assert (Hsetup : log w3 = log w ++ setup_trace []).
  { rewrite Hl4, Hl3, Hl2, Hl1, <- !app_assoc. reflexivity. }
  assert (Hcommitted : committed w3 = committed w) by congruence.
  clear Hl1 Hl2 Hl3 Hl4 Hc1 Hc2 Hc3 Hc4.
  (* the inserts *)
  chain H.
  { destruct (insert_loop_inv _ _ _ _ _ _ Hm Hs4 Hg2)
      as (Hc & [(? & _) | (k & done & op & Hr & Hl & Hq)]); [nope |].
    subst. inversion Hr; subst. exists (setup_trace [] ++ done ++ [StoreFailed op]). split.
    - rewrite Hl, Hsetup, <- app_assoc. reflexivity.
    - right; left. exists k, (setup_trace [] ++ done), op.
      split; [reflexivity |].
      split; [rewrite <- app_assoc; reflexivity |].
      split; [apply Forall_app; split; [repeat constructor | exact Hq] |].
      congruence. }
  destruct (insert_loop_inv _ _ _ _ _ _ Hm Hs4 Hg2)
    as (Hc5 & [(_ & Hl5 & db3 & Hs5 & Hg3 & Hp3) | (k & done & op & ? & _)]);
    [| nope].
  clear Hm.
  assert (Htrace : log w4 = log w ++ setup_trace appids).
  { rewrite Hl5, Hsetup. unfold setup_trace. rewrite <- !app_assoc. reflexivity. }
  assert (Hinit : initialised appids (committed w) db3).
  { split; [exact Hg3 |]. rewrite Hp3, Hp2. unfold observations.
    rewrite Hp1. reflexivity. }
  (* commit *)
  chain H.
  { destruct (conn_commit_inv _ _ _ _ Hm Hs5) as [(? & _) | (k & Hr & Hc & Hl)];
      [nope |].
    subst. inversion Hr; subst. exists (setup_trace appids ++ [StoreFailed Commit]). split.
    - rewrite Hl, Htrace, <- app_assoc. reflexivity.
    - right; left. exists k, (setup_trace appids), Commit.
      split; [reflexivity |]. split; [reflexivity |].
      split; [| congruence].
      unfold setup_trace. apply Forall_app. split; [repeat constructor |].
      apply Forall_map. apply Forall_forall. intros g _. exact I. }
  destruct (conn_commit_inv _ _ _ _ Hm Hs5) as [(_ & Hc6 & Hl6) | (k & ? & _)];
    [| nope].
  clear Hm. subst db3.
  (* close the cursor *)
  chain H.
  { destruct (cur_close_inv _ _ _ Hm) as (Hc & [(? & _) | (k & Hr & Hl)]);
      [nope |].
    subst. inversion Hr; subst. exists (setup_trace appids ++ [Store Commit; StoreFailed CursorClose]).
    split.
    - rewrite Hl, Hl6, Htrace, <- !app_assoc. reflexivity.
    - right; right. exists k. rewrite Hc. auto. }
  destruct (cur_close_inv _ _ _ Hm) as (Hc7 & [(_ & Hl7) | (k & ? & _)]);
    [| nope].
  clear Hm.
  (* close the connection *)
  destruct (conn_close_inv _ _ _ H) as (Hc8 & [(Hr & Hl8) | (k & Hr & Hl8)]).
  - exists (setup_trace appids ++ [Store Commit; Store CursorClose; Store ConnClose]).
    split.
    + rewrite Hl8, Hl7, Hl6, Htrace, <- !app_assoc. reflexivity.
    + left. rewrite Hc8, Hc7. auto.
  - exists (setup_trace appids
            ++ [Store Commit; Store CursorClose; StoreFailed ConnClose]).
    split.
    + rewrite Hl8, Hl7, Hl6, Htrace, <- !app_assoc. reflexivity.
    + right; right. exists k. rewrite Hc8, Hc7. auto.
Qed.

(** ** The table [games] under insert-or-ignore *)

Lemma has_game_iff (appid : Z) (rows : list (Z * string)) :
  has_game appid rows = true <-> In appid (map fst rows).
Proof.
  unfold has_game. rewrite existsb_exists, in_map_iff.
  split; intros (r & H1 & H2); exists r.
  - apply Z.eqb_eq in H2. auto.
  - rewrite H1, Z.eqb_refl. auto.
Qed.

Lemma has_game_rows_for (appid : Z) (rows : list (Z * string)) :
  rows_for appid rows <> [] -> has_game appid rows = true.
Proof.
  unfold rows_for, has_game. induction rows as [| r rows IH]; cbn.
  - congruence.
  - destruct (fst r =? appid); cbn; auto.
Qed.

Lemma has_game_insert_game (appid : Z) (rows : list (Z * string))
    (g : Z * string) :
  has_game appid (insert_game rows g)
  = has_game appid rows || (fst g =? appid).
Proof.
  unfold insert_game.
  destruct (has_game (fst g) rows) eqn:Hg.
  - destruct (fst g =? appid) eqn:Heq.
    + apply Z.eqb_eq in Heq. subst. rewrite Hg. reflexivity.
    + rewrite orb_false_r. reflexivity.
  - unfold has_game. rewrite existsb_app. cbn. rewrite orb_false_r.
    reflexivity.
Qed.

Lemma rows_for_insert_game (appid : Z) (rows : list (Z * string))
    (g : Z * string) :
  has_game appid rows = true ->
  rows_for appid (insert_game rows g) = rows_for appid rows.
Proof.
  intros Hin. unfold insert_game.
  destruct (has_game (fst g) rows) eqn:Hg; [reflexivity |].
  unfold rows_for. rewrite filter_app. cbn.
  destruct (fst g =? appid) eqn:Heq.
  - apply Z.eqb_eq in Heq. subst. congruence.
  - apply app_nil_r.
Qed.

Lemma rows_for_fold (appid : Z) (appids : list (Z * string)) :
  forall rows,
    has_game appid rows = true ->
    rows_for appid (fold_left insert_game appids rows) = rows_for appid rows.
Proof.
  induction appids as [| g rest IH]; intros rows Hin; cbn [fold_left].
  - reflexivity.
  - rewrite IH.
    + apply rows_for_insert_game. exact Hin.
    + rewrite has_game_insert_game, Hin. reflexivity.
Qed.

Lemma has_game_fold (appid : Z) (appids : list (Z * string)) :
  forall rows,
    has_game appid rows = true \/ In appid (map fst appids) ->
    has_game appid (fold_left insert_game appids rows) = true.
Proof.
  induction appids as [| g rest IH]; intros rows H; cbn [fold_left map In] in *.
  - destruct H as [H | []]. exact H.
  - apply IH. rewrite has_game_insert_game.
    destruct H as [H | [H | H]].
    + left. rewrite H. reflexivity.
    + left. rewrite H, Z.eqb_refl. apply orb_true_r.
    + right. exact H.
Qed.

Lemma fold_insert_present (appids : list (Z * string)) :
  forall rows,
    (forall g, In g appids -> has_game (fst g) rows = true) ->
    fold_left insert_game appids rows = rows.
Proof.
  induction appids as [| g rest IH]; intros rows H; cbn [fold_left map In] in *.
  - reflexivity.
  - assert (Hg : insert_game rows g = rows).
    { unfold insert_game. rewrite (H g (or_introl eq_refl)). reflexivity. }
    rewrite Hg. apply IH. intros g' Hin. apply H. right. exact Hin.
Qed.

Lemma primary_key_insert_game (rows : list (Z * string)) (g : Z * string) :
  primary_key rows -> primary_key (insert_game rows g).
Proof.
  unfold primary_key, insert_game. intros Hpk.
  destruct (has_game (fst g) rows) eqn:Hg; [exact Hpk |].
  rewrite map_app. apply NoDup_app.
  - exact Hpk.
  - cbn. constructor; [intros [] | constructor].
  - intros a Hin [Ha | []]. cbn in Ha. subst a.
    apply has_game_iff in Hin. congruence.
Qed.

Lemma primary_key_fold (appids : list (Z * string)) :
  forall rows,
    primary_key rows -> primary_key (fold_left insert_game appids rows).
Proof.
  induction appids as [| g rest IH]; intros rows Hpk; cbn [fold_left].
  - exact Hpk.
  - apply IH. apply primary_key_insert_game. exact Hpk.
Qed.

Lemma rows_for_absent (appid : Z) (rows : list (Z * string)) :
  ~ In appid (map fst rows) -> rows_for appid rows = [].
Proof.
  unfold rows_for. induction rows as [| r rows IH]; cbn; intros Hnot.
  - reflexivity.
  - destruct (fst r =? appid) eqn:Heq.
    + apply Z.eqb_eq in Heq. tauto.
    + apply IH. tauto.
Qed.

Lemma count_game_primary_key (appid : Z) (rows : list (Z * string)) :
  primary_key rows ->
  has_game appid rows = true ->
  count_game appid rows = 1%nat.
Proof.
  unfold primary_key, count_game. intros Hpk Hin.
  apply has_game_iff in Hin.
  induction rows as [| r rows IH]; cbn in *.
  - destruct Hin.
  - apply NoDup_cons_iff in Hpk. destruct Hpk as (Hnot & Hpk).
    unfold rows_for in *. cbn.
    destruct (fst r =? appid) eqn:Heq.
    + apply Z.eqb_eq in Heq. subst appid. cbn.
      fold (rows_for (fst r) rows). rewrite rows_for_absent by exact Hnot.
      reflexivity.
    + apply IH; [exact Hpk |].
      destruct Hin as [Hin | Hin]; [| exact Hin].
      apply Z.eqb_neq in Heq. contradiction.
Qed.

Lemma quiet_not_failed (trace : list event) (op : store_op) :
  Forall is_quiet trace -> ~ In (StoreFailed op) trace.
Proof.
  intros Hq Hin. rewrite Forall_forall in Hq. exact (Hq _ Hin).
Qed.

Lemma quiet_no_commit (trace : list event) :
  Forall is_quiet trace -> filter is_commit trace = [].
Proof.
  induction 1 as [| e trace He _ IH]; cbn; [reflexivity |].
  destruct e as [| | [] | ]; cbn in *; try contradiction; exact IH.
Qed.

Lemma setup_trace_quiet (appids : list (Z * string)) :
  Forall is_quiet (setup_trace appids).
Proof.
  unfold setup_trace. apply Forall_app. split; [repeat constructor |].
  apply Forall_map. apply Forall_forall. intros g _. exact I.
Qed.

(** ** The store initializer *)

(** C5.  Two calls of [init_db] in succession, both returning, on a store
    whose [games] table (if it exists) respects its primary key: after
    the second call the store is what it was after the first, and for
    every configured identifier the table holds exactly one row, after
    the first call and after the second. *)
Theorem init_db_idempotent (appids : list (Z * string)) (w w1 w2 : world) :
  primary_key (rows_of (committed w)) ->
  init_db appids w = (Ok tt, w1) ->
  init_db appids w1 = (Ok tt, w2) ->
  committed w2 = committed w1 /\
  forall appid name,
    In (appid, name) appids ->
    count_game appid (rows_of (committed w1)) = 1%nat /\
    count_game appid (rows_of (committed w2)) = 1%nat.
Proof.
  intros Hpk H1 H2.
  destruct (init_db_cases _ _ _ _ H1)
    as (new1 & _ & [(_ & _ & Hg1 & Hp1) | [(k & ? & ? & ? & _) | (k & ? & _)]]);
    try nope.
  destruct (init_db_cases _ _ _ _ H2)
    as (new2 & _ & [(_ & _ & Hg2 & Hp2) | [(k & ? & ? & ? & _) | (k & ? & _)]]);
    try nope.
  assert (Hrows1 : rows_of (committed w1)
                   = fold_left insert_game appids (rows_of (committed w))).
  { unfold rows_of at 1. rewrite Hg1. reflexivity. }
  assert (Hall : forall g, In g appids ->
                           has_game (fst g) (rows_of (committed w1)) = true).
  { intros g Hin. rewrite Hrows1. apply has_game_fold. right.
    apply in_map. exact Hin. }
  assert (Hsame : committed w2 = committed w1).
  { apply database_ext.
    - rewrite Hg2, fold_insert_present by exact Hall.
      unfold rows_of. rewrite Hg1. reflexivity.
    - rewrite Hp2. unfold observations. rewrite Hp1. reflexivity. }
  split; [exact Hsame |].
  intros appid name Hin. rewrite Hsame.
  assert (Hone : count_game appid (rows_of (committed w1)) = 1%nat).
  { apply count_game_primary_key.
    - rewrite Hrows1. apply primary_key_fold. exact Hpk.
    - apply (Hall (appid, name) Hin). }
  auto.
Qed.

Lemma init_db_idempotent_witness :
  committed (snd (init_db APPIDS (snd (init_db APPIDS fresh_world))))
  = committed (snd (init_db APPIDS fresh_world)) /\
  forall appid name,
    In (appid, name) APPIDS ->
    count_game appid (rows_of (committed (snd (init_db APPIDS fresh_world))))
    = 1%nat /\
    count_game appid
      (rows_of (committed (snd (init_db APPIDS (snd (init_db APPIDS fresh_world))))))
    = 1%nat.
Proof.
  refine (init_db_idempotent APPIDS fresh_world
            (snd (init_db APPIDS fresh_world))
            (snd (init_db APPIDS (snd (init_db APPIDS fresh_world)))) _ _ _).
  - vm_compute. constructor.
  - vm_compute. reflexivity.
  - vm_compute. reflexivity.
Defined.

(** C7.  A game whose identifier has a row in [games] keeps that row
    through any call of [init_db], whatever the configuration says about
    the identifier (another display name included) and however the call
    ends: the stored name is not updated. *)
Theorem init_db_keeps_name (appids : list (Z * string)) (w : world)
    (r : result unit) (w' : world) (appid : Z) (name : string) :
  rows_for appid (rows_of (committed w)) = [(appid, name)] ->
  init_db appids w = (r, w') ->
  rows_for appid (rows_of (committed w')) = [(appid, name)].
Proof.
  intros Hrow H.
  assert (Hin : has_game appid (rows_of (committed w)) = true).
  { apply has_game_rows_for. rewrite Hrow. discriminate. }
  assert (Hinit : initialised appids (committed w) (committed w') ->
                  rows_for appid (rows_of (committed w')) = [(appid, name)]).
  { intros (Hg & _). unfold rows_of at 1. rewrite Hg.
    rewrite rows_for_fold by exact Hin. exact Hrow. }
  destruct (init_db_cases _ _ _ _ H)
    as (new & _ & [(_ & _ & Hi) | [(k & done & op & _ & _ & _ & Hc) | (k & _ & Hi & _)]]);
    auto.
  rewrite Hc. exact Hrow.
Qed.

Lemma init_db_keeps_name_witness :
  rows_for 730 (rows_of (committed (snd (init_db APPIDS renamed_world))))
  = [(730, "Counter-Strike: Global Offensive")].
Proof.
  refine (init_db_keeps_name APPIDS renamed_world
            (fst (init_db APPIDS renamed_world))
            (snd (init_db APPIDS renamed_world))
            730 "Counter-Strike: Global Offensive" _ _).
  - vm_compute. reflexivity.
  - vm_compute. reflexivity.
Defined.

(** C10.  A call of [init_db] that returns has called commit exactly
    once, after the two CREATE TABLE statements and all the inserts.  If
    one of the statements raises, the call raises, no commit has been
    called, and the durable store is what it was before the call. *)
Theorem init_db_commits_once (appids : list (Z * string)) (w : world)
    (r : result unit) (w' : world) :
  init_db appids w = (r, w') ->
  exists new,
    log w' = log w ++ new /\
    (r = Ok tt ->
     new = [Store Connect; Store Cursor; Store (Execute CreateGames);
            Store (Execute CreatePlayerCounts)]
           ++ map insert_event appids
           ++ [Store Commit; Store CursorClose; Store ConnClose] /\
     count_commits new = 1%nat) /\
    (forall s,
        In (StoreFailed (Execute s)) new ->
        (exists e, r = Raise e) /\
        count_commits new = 0%nat /\
        committed w' = committed w).
Proof.
  intros H.
  destruct (init_db_cases _ _ _ _ H) as (new & Hlog & Hcases).
  exists new. split; [exact Hlog |].
  pose proof (setup_trace_quiet appids) as Hquiet.
  destruct Hcases
    as [(Hr & Hnew & _) | [(k & done & op & Hr & Hnew & Hq & Hc) | (k & Hr & _ & Hnew)]].
  - split.
    + intros _. subst new. split.
      * unfold setup_trace. rewrite <- app_assoc. reflexivity.
      * unfold count_commits. rewrite filter_app, quiet_no_commit by exact Hquiet.
        reflexivity.
    + intros s Hin. exfalso. subst new.
      apply in_app_or in Hin. destruct Hin as [Hin | Hin].
      * exact (quiet_not_failed _ _ Hquiet Hin).
      * cbn in Hin. intuition discriminate.
  - split; [intros; subst; nope |].
    intros s Hin. subst new.
    apply in_app_or in Hin. destruct Hin as [Hin | Hin].
    + exfalso. exact (quiet_not_failed _ _ Hq Hin).
    + destruct Hin as [Heq | []]. inversion Heq; subst op.
      split; [eauto |]. split; [| exact Hc].
      unfold count_commits. rewrite filter_app, quiet_no_commit by exact Hq.
      reflexivity.
  - split; [intros; subst; nope |].
    intros s Hin. exfalso.
    destruct Hnew as [Hnew | Hnew]; subst new;
      apply in_app_or in Hin; destruct Hin as [Hin | Hin];
      try exact (quiet_not_failed _ _ Hquiet Hin);
      cbn in Hin; intuition discriminate.
Qed.

Lemma init_db_commits_once_witness :
  exists new,
    log (snd (init_db APPIDS failing_world)) = log failing_world ++ new /\
    (fst (init_db APPIDS failing_world) = Ok tt ->
     new = [Store Connect; Store Cursor; Store (Execute CreateGames);
            Store (Execute CreatePlayerCounts)]
           ++ map insert_event APPIDS
           ++ [Store Commit; Store CursorClose; Store ConnClose] /\
     count_commits new = 1%nat) /\
    (forall s,
        In (StoreFailed (Execute s)) new ->
        (exists e, fst (init_db APPIDS failing_world) = Raise e) /\
        count_commits new = 0%nat /\
        committed (snd (init_db APPIDS failing_world)) = committed failing_world).
Proof.
  refine (init_db_commits_once APPIDS failing_world
            (fst (init_db APPIDS failing_world))
            (snd (init_db APPIDS failing_world)) _).
  vm_compute. reflexivity.
Defined.

(** The run of [failing_world]: the second insert raises; the first
    insert was executed and is not durable. *)
Example init_db_failing_run :
  fst (init_db APPIDS failing_world) = Raise (DatabaseError OperationalError) /\
  log (snd (init_db APPIDS failing_world))
  = [Store Connect; Store Cursor; Store (Execute CreateGames);
     Store (Execute CreatePlayerCounts);
     Store (Execute (InsertGame 730 "Counter-Strike 2"));
     StoreFailed (Execute (InsertGame 570 "Dota 2"))] /\
  committed (snd (init_db APPIDS failing_world)) = empty_db.
Proof.
  repeat split; vm_compute; reflexivity.
Qed.

(** ** What a computation adds to the trace *)

Lemma emits_ret {A : Type} (P : event -> Prop) (a : A) : emits P (ret a).
Proof.
  intros w r w' H. inversion H; subst. exists []. rewrite app_nil_r. auto.
Qed.

Lemma emits_lift {A : Type} (P : event -> Prop) (x : result A) :
  emits P (lift x).
Proof.
  intros w r w' H. inversion H; subst. exists []. rewrite app_nil_r. auto.
Qed.

Lemma emits_bind {A B : Type} (P : event -> Prop) (m : M A) (k : A -> M B) :
  emits P m -> (forall a, emits P (k a)) -> emits P (bind m k).
Proof.
  intros Hm Hk w r w' H. apply bind_inv in H.
  destruct H as [(e & H & _) | (a & w1 & H1 & H2)].
  - exact (Hm _ _ _ H).
  - destruct (Hm _ _ _ H1) as (n1 & Hl1 & Hp1).
    destruct (Hk a _ _ _ H2) as (n2 & Hl2 & Hp2).
    exists (n1 ++ n2). split.
    + rewrite Hl2, Hl1, app_assoc. reflexivity.
    + apply Forall_app. auto.
Qed.

Lemma emits_try_except {A : Type} (P : event -> Prop) (body : M A)
    (handler : exn -> M A) :
  emits P body -> (forall e, emits P (handler e)) ->
  emits P (try_except body handler).
Proof.
  intros Hb Hh w r w' H. unfold try_except in H.
  destruct (body w) as [[a | e] w1] eqn:Hbody.
  - inversion H; subst. exact (Hb _ _ _ Hbody).
  - destruct (Hb _ _ _ Hbody) as (n1 & Hl1 & Hp1).
    destruct (Hh e _ _ _ H) as (n2 & Hl2 & Hp2).
    exists (n1 ++ n2). split.
    + rewrite Hl2, Hl1, app_assoc. reflexivity.
    + apply Forall_app. auto.
Qed.

Lemma emits_emit (P : event -> Prop) (e : event) : P e -> emits P (emit e).
Proof.
  intros He w r w' H. inversion H; subst. exists [e]. cbn. auto.
Qed.

Lemma emits_time_time (P : event -> Prop) : emits P time_time.
Proof.
  intros w r w' H. inversion H; subst. exists []. rewrite app_nil_r. auto.
Qed.

Lemma emits_requests_get (P : event -> Prop) (ep : endpoint) (appid : Z) :
  P (Get ep appid) -> emits P (requests_get ep appid).
Proof.
  intros He. unfold requests_get. apply emits_bind.
  - apply emits_emit. exact He.
  - intros _ w r w' H. inversion H; subst. exists []. rewrite app_nil_r. auto.
Qed.

Lemma emits_store_call (P : event -> Prop) (op : store_op)
    (act : world -> db_error + world) :
  P (Store op) -> P (StoreFailed op) ->
  (forall w w1, act w = inr w1 -> log w1 = log w) ->
  emits P (store_call op act).
Proof.
  intros Hok Hfail Hact w r w' H. call H; subst.
  - exists [Store op]. cbn. rewrite (Hact _ _ Hact0). cbn. auto.
  - exists [StoreFailed op]. cbn. auto.
Qed.

Lemma emits_for_each {A : Type} (P : event -> Prop) (l : list A)
    (body : A -> M unit) :
  (forall x, In x l -> emits P (body x)) -> emits P (for_each l body).
Proof.
  induction l as [| x l IH]; intros Hbody; cbn [for_each].
  - apply emits_ret.
  - apply emits_bind.
    + apply Hbody. left. reflexivity.
    + intros _. apply IH. intros y Hy. apply Hbody. right. exact Hy.
Qed.

Lemma emits_weaken {A : Type} (P Q : event -> Prop) (m : M A) :
  (forall e, P e -> Q e) -> emits P m -> emits Q m.
Proof.
  intros HPQ Hm w r w' H. destruct (Hm _ _ _ H) as (new & Hl & Hp).
  exists new. split; [exact Hl |]. eapply Forall_impl; eauto.
Qed.

Ltac emits_steps :=
  repeat first
    [ apply emits_ret
    | apply emits_lift
    | apply emits_time_time
    | apply emits_requests_get
    | apply emits_emit
    | apply emits_bind; [| intros ?]
    | apply emits_try_except; [| intros ?]
    | match goal with
      | |- emits _ (if ?b then _ else _) => destruct b
      end ].

Lemma emits_collectors (ids : list Z) (appid : Z) :
  In appid ids ->
  emits (about ids) (get_current_player_count appid) /\
  emits (about ids) (get_sale_info appid) /\
  emits (about ids) (get_estimated_owners appid).
Proof.
  intros Hin.
  unfold get_current_player_count, get_sale_info, get_estimated_owners,
    response_json, print.
  repeat split; emits_steps; first [exact Hin | exact I].
Qed.

Lemma emits_log_player_data (ids : list Z) (appid : Z) (count : value)
    (sale_info : sale) (owners : value) :
  In appid ids ->
  emits (about ids) (log_player_data appid count sale_info owners).
Proof.
  intros Hin. unfold log_player_data.
  apply emits_bind; [apply emits_time_time | intros ts].
  assert (Hexec : emits (about ids)
                    (cur_execute (InsertObservation appid ts count sale_info owners))).
  { apply emits_store_call; [exact Hin | exact Hin |].
    intros w w1 H. cbn in H. repeat split_hyp H; try nope.
    inversion H; subst. reflexivity. }
  assert (Hother : emits (about ids) psycopg2_connect /\
                   emits (about ids) conn_cursor /\
                   emits (about ids) conn_commit /\
                   emits (about ids) cur_close /\
                   emits (about ids) conn_close).
  { repeat split; (apply emits_store_call; [exact I | exact I |]);
      intros w w1 H; cbn in H; repeat split_hyp H; try nope;
      inversion H; subst; reflexivity. }
  destruct Hother as (H1 & H2 & H3 & H4 & H5).
  repeat (apply emits_bind; [assumption | intros _]). assumption.
Qed.

Lemma emits_track_game (ids : list Z) (appid : Z) (name : string) :
  In appid ids -> emits (about ids) (track_game appid name).
Proof.
  intros Hin. unfold track_game, print.
  destruct (emits_collectors ids appid Hin) as (H1 & H2 & H3).
  apply emits_bind; [apply emits_emit; exact I | intros _].
  apply emits_bind; [exact H1 | intros count].
  apply emits_bind; [exact H2 | intros sale_info].
  apply emits_bind; [exact H3 | intros owners].
  apply emits_bind; [apply emits_log_player_data; exact Hin | intros _].
  emits_steps; exact I.
Qed.

Lemma emits_track_games (appid_map : list (Z * string)) :
  emits (about (map fst appid_map)) (track_games appid_map).
Proof.
  unfold track_games. apply emits_for_each.
  intros [appid name] Hin. apply emits_track_game.
  apply (in_map fst) in Hin. exact Hin.
Qed.

(** ** Where a run can raise *)

Lemma store_abort_never {A : Type} (m : M A) :
  (forall w, exists a, fst (m w) = Ok a) -> store_abort m.
Proof.
  intros Hm w e w' H. destruct (Hm w) as (a & Ha).
  rewrite H in Ha. discriminate Ha.
Qed.

Lemma store_abort_bind {A B : Type} (m : M A) (k : A -> M B) :
  store_abort m -> (forall a, store_abort (k a)) -> store_abort (bind m k).
Proof.
  intros Hm Hk w e w' H. apply bind_inv in H.
  destruct H as [(e' & H & Heq) | (a & w1 & _ & H)].
  - inversion Heq; subst. exact (Hm _ _ _ H).
  - exact (Hk a _ _ _ H).
Qed.

Lemma store_abort_store_call (op : store_op) (act : world -> db_error + world) :
  store_abort (store_call op act).
Proof.
  intros w e w' H. call H; [nope |].
  match goal with Hr : Raise _ = Raise _ |- _ => inversion Hr; subst end.
  split; [reflexivity |]. cbn. eauto.
Qed.

Lemma store_abort_for_each {A : Type} (l : list A) (body : A -> M unit) :
  (forall x, store_abort (body x)) -> store_abort (for_each l body).
Proof.
  intros Hbody. induction l as [| x l IH]; cbn [for_each].
  - apply store_abort_never. intros w. exists tt. reflexivity.
  - apply store_abort_bind; [apply Hbody | intros _; exact IH].
Qed.

Lemma store_abort_log_player_data (appid : Z) (count : value)
    (sale_info : sale) (owners : value) :
  store_abort (log_player_data appid count sale_info owners).
Proof.
  unfold log_player_data, psycopg2_connect, conn_cursor, cur_execute,
    conn_commit, cur_close, conn_close.
  apply store_abort_bind.
  - apply store_abort_never. intros w. eexists. reflexivity.
  - intros ts.
    repeat (apply store_abort_bind; [apply store_abort_store_call | intros _]).
    apply store_abort_store_call.
Qed.

Lemma store_abort_track_game (appid : Z) (name : string) :
  store_abort (track_game appid name).
Proof.
  unfold track_game.
  apply store_abort_bind;
    [apply store_abort_never; intros w; exists tt; reflexivity | intros _].
  apply store_abort_bind;
    [apply store_abort_never; apply get_current_player_count_total | intros count].
  apply store_abort_bind;
    [apply store_abort_never; apply get_sale_info_total | intros sale_info].
  apply store_abort_bind;
    [apply store_abort_never; apply get_estimated_owners_total | intros owners].
  apply store_abort_bind; [apply store_abort_log_player_data | intros _].
  repeat (apply store_abort_bind;
          [apply store_abort_never; intros w; exists tt; reflexivity | intros _]).
  apply store_abort_never. intros w. exists tt. reflexivity.
Qed.

Lemma for_each_app {A : Type} (body : A -> M unit) (l1 l2 : list A) :
  forall w,
    for_each (l1 ++ l2) body w
    = match for_each l1 body w with
      | (Ok _, w1) => for_each l2 body w1
      | (Raise e, w1) => (Raise e, w1)
      end.
Proof.
  induction l1 as [| x l1 IH]; intros w; cbn [for_each app].
  - reflexivity.
  - unfold bind. destruct (body x w) as [[u | e] w1]; [apply IH | reflexivity].
Qed.

(** ** The run loop *)

(** C6.  When the Recorder raises while the loop is at one identifier,
    [track_games] raises the same exception and stops there: the world it
    leaves is the one the Recorder left, and the trace of the run has no
    request and no insert for any identifier after that one.  The
    collectors never raise, whatever the network does, and whenever the
    loop raises, the exception is of the store tier and comes out of a
    driver call that failed. *)
Theorem track_games_store_failure_aborts :
  (forall (before after : list (Z * string)) (appid : Z) (name : string)
          (w w1 wa wb wc wd w2 : world)
          (count : value) (sale_info : sale) (owners : value) (e : exn),
      track_games before w = (Ok tt, w1) ->
      print (Tracking name appid) w1 = (Ok tt, wa) ->
      get_current_player_count appid wa = (Ok count, wb) ->
      get_sale_info appid wb = (Ok sale_info, wc) ->
      get_estimated_owners appid wc = (Ok owners, wd) ->
      log_player_data appid count sale_info owners wd = (Raise e, w2) ->
      track_games (before ++ (appid, name) :: after) w = (Raise e, w2) /\
      store_tier e = true /\
      exists new,
        log w2 = log w ++ new /\
        Forall (about (map fst before ++ [appid])) new) /\
  (forall appid w,
      (exists count, fst (get_current_player_count appid w) = Ok count) /\
      (exists sale_info, fst (get_sale_info appid w) = Ok sale_info) /\
      (exists owners, fst (get_estimated_owners appid w) = Ok owners)) /\
  (forall appid_map w e w',
      track_games appid_map w = (Raise e, w') ->
      store_tier e = true /\
      exists done op, log w' = done ++ [StoreFailed op]).
Proof.
  split; [| split].
  - intros before after appid name w w1 wa wb wc wd w2 count sale_info owners e
      Hbefore Hprint Hcount Hsale Howners Hlog.
    assert (Hbody : track_game appid name w1 = (Raise e, w2)).
    { unfold track_game, bind.
      rewrite Hprint, Hcount, Hsale, Howners, Hlog. reflexivity. }
    assert (Hrun : forall rest,
               track_games (before ++ (appid, name) :: rest) w = (Raise e, w2)).
    { intros rest. unfold track_games in *. rewrite for_each_app, Hbefore.
      cbn [for_each]. unfold bind. rewrite Hbody. reflexivity. }
    split; [apply Hrun |].
    split; [exact (proj1 (store_abort_log_player_data _ _ _ _ _ _ _ Hlog)) |].
    destruct (emits_track_games _ _ _ _ (Hrun [])) as (new & Hl & Hp).
    exists new. split; [exact Hl |].
    rewrite map_app in Hp. exact Hp.
  - intros appid w. split; [| split].
    + apply get_current_player_count_total.
    + apply get_sale_info_total.
    + apply get_estimated_owners_total.
  - intros appid_map w e w' H. unfold track_games in H.
    refine (store_abort_for_each appid_map _ _ _ _ _ H).
    intros [appid name]. apply store_abort_track_game.
Qed.

Lemma track_games_store_failure_aborts_witness :
  exists w2,
    track_games ([(730, "Counter-Strike 2")] ++ (570, "Dota 2")
                 :: [(440, "Team Fortress 2"); (578080, "PUBG");
                     (1172470, "Apex Legends"); (2767030, "Marvel Rivals")])
      second_record_fails
    = (Raise (DatabaseError OperationalError), w2) /\
    store_tier (DatabaseError OperationalError) = true /\
    exists new,
      log w2 = log second_record_fails ++ new /\
      Forall (about (map fst [(730, "Counter-Strike 2")] ++ [570])) new.
Proof.
  pose (w1 := snd (track_games [(730, "Counter-Strike 2")] second_record_fails)).
  pose (wa := snd (print (Tracking "Dota 2" 570) w1)).
  pose (wb := snd (get_current_player_count 570 wa)).
  pose (wc := snd (get_sale_info 570 wb)).
  pose (wd := snd (get_estimated_owners 570 wc)).
  pose (w2 := snd (log_player_data 570 (VInt 0) no_sale (VStr "unknown") wd)).
  exists w2.
  destruct track_games_store_failure_aborts as (H & _).
  refine (H [(730, "Counter-Strike 2")] _ 570 "Dota 2" second_record_fails
            w1 wa wb wc wd w2 (VInt 0) no_sale (VStr "unknown")
            (DatabaseError OperationalError) _ _ _ _ _ _);
    vm_compute; reflexivity.
Defined.

(** With the network down and a store that takes every call, the run
    goes through all six games and records the defaults for each. *)
Example track_games_net_down_run :
  fst (track_games APPIDS (world_of net_down [] ready_db)) = Ok tt /\
  map (fun o => (game_id o, player_count o, row_on_sale o, estimated_owners o))
    (observations (committed (snd (track_games APPIDS (world_of net_down [] ready_db)))))
  = map (fun g => (fst g, VInt 0, false, VStr "unknown")) APPIDS.
Proof.
  split; vm_compute; reflexivity.
Qed.

(** ** More on the collectors *)

Lemma subscript_ok_inv (x : value) (k : string) (v : value) :
  subscript x k = Ok v -> exists d, x = VDict d /\ dict_lookup k d = Some v.
Proof.
  destruct x; cbn; try discriminate.
  destruct (dict_lookup k d) eqn:Hk; [| discriminate].
  intros H. inversion H; subst. eauto.
Qed.

Lemma response_eta (a : response) (x : result value) :
  json a = x -> a = {| json := x |}.
Proof.
  destruct a. cbn. intros ->. reflexivity.
Qed.

Ltac invert_subscripts :=
  repeat match goal with
         | H : subscript ?x _ = Ok _ |- _ =>
             apply subscript_ok_inv in H;
             let d := fresh "d" in
             let Hx := fresh "Hx" in
             destruct H as (d & Hx & H);
             first [subst x | inversion Hx; subst]
         | H : json ?a = _ |- _ => apply response_eta in H; subst a
         end.

Lemma collectors_worlds (appid : Z) (w : world) :
  (exists tail,
      snd (get_current_player_count appid w)
      = record_events (Get PlayerCountAPI appid :: tail) w /\
      diagnostic (PlayerCountError appid) tail) /\
  (exists tail,
      snd (get_sale_info appid w)
      = record_events (Get AppDetailsAPI appid :: tail) w /\
      diagnostic (SaleInfoError appid) tail) /\
  (exists tail,
      snd (get_estimated_owners appid w)
      = record_events (Get SteamSpyAPI appid :: tail) w /\
      diagnostic (OwnersError appid) tail).
Proof.
  unfold diagnostic.
  repeat split; run; repeat (split_match; cbn [fst snd]);
    first [ exists []; split; [reflexivity | left; reflexivity]
          | eexists [_]; split; [reflexivity | right; eexists; reflexivity] ].
Qed.

Lemma record_events_frame (es : list event) :
  forall w,
    log (record_events es w) = log w ++ es /\
    net (record_events es w) = net w /\
    clock (record_events es w) = clock w /\
    faults (record_events es w) = faults w /\
    serial (record_events es w) = serial w /\
    committed (record_events es w) = committed w /\
    session (record_events es w) = session w.
Proof.
  unfold record_events.
  induction es as [| e es IH]; intros w; cbn [fold_left].
  - rewrite app_nil_r. repeat split.
  - destruct (IH (record_event e w)) as (Hl & Hn & Hk & Hf & Hse & Hc & Hs).
    rewrite Hl, Hn, Hk, Hf, Hse, Hc, Hs. cbn. rewrite <- app_assoc.
    repeat split.
Qed.

(** X1.  A collector does one thing to the world: it writes its request
    to the trace, followed by the diagnostic of its handler if it prints
    one.  It makes one request, and the store, the connection and the
    schedule of the store are as before. *)
Theorem collectors_only_request (appid : Z) (w : world) :
  requested PlayerCountAPI appid (PlayerCountError appid) w
    (snd (get_current_player_count appid w)) /\
  requested AppDetailsAPI appid (SaleInfoError appid) w
    (snd (get_sale_info appid w)) /\
  requested SteamSpyAPI appid (OwnersError appid) w
    (snd (get_estimated_owners appid w)).
Proof.
  unfold requested.
  destruct (collectors_worlds appid w)
    as ((t1 & H1 & D1) & (t2 & H2 & D2) & (t3 & H3 & D3)).
  rewrite H1, H2, H3.
  split; [exists t1 | split; [exists t2 | exists t3]];
    match goal with
    | |- context [record_events ?es w] =>
        destruct (record_events_frame es w) as (Hl & Hn & _ & Hf & Hse & Hcm & Hs)
    end;
    auto 10.
Qed.

(** X2.  What the player-count collector returns is 0 or the
    [player_count] field of the response object; what the ownership
    collector returns is "unknown" or the [owners] field of the
    response. *)
Theorem collector_value_from_response (appid : Z) (w : world) :
  (exists v,
      fst (get_current_player_count appid w) = Ok v /\
      (v = VInt 0 \/
       exists d r,
         net w PlayerCountAPI appid = body (VDict d) /\
         dict_lookup "response" d = Some (VDict r) /\
         dict_lookup "player_count" r = Some v)) /\
  (exists v,
      fst (get_estimated_owners appid w) = Ok v /\
      (v = VStr "unknown" \/
       exists d,
         net w SteamSpyAPI appid = body (VDict d) /\
         dict_lookup "owners" d = Some v)).
Proof.
  unfold body. split; run.
  - destruct (net w PlayerCountAPI appid) as [[[data | e]] | e];
      cbn [json fst]; eauto.
    destruct data as [| | | | | | d]; cbn [subscript fst]; eauto.
    destruct (dict_lookup "response" d) as [r |] eqn:Hr; cbn [fst]; eauto.
    destruct r as [| | | | | | r]; cbn [dict_get fst]; eauto.
    destruct (dict_lookup "player_count" r) as [x |] eqn:Hx; cbn [fst]; eauto.
    exists x. split; [reflexivity |]. right. exists d, r. auto.
  - destruct (net w SteamSpyAPI appid) as [[[data | e]] | e];
      cbn [json fst]; eauto.
    destruct data as [| | | | | | d]; cbn [dict_get fst]; eauto.
    destruct (dict_lookup "owners" d) as [x |] eqn:Hx; cbn [fst]; eauto.
    exists x. split; [reflexivity |]. right. exists d. auto.
Qed.

(** X3.  The sale collector never returns a partly filled record: the
    record is the neutral default, or all four fields come from a price
    block found under a truthy [success] flag, with [discount_percent] a
    number. *)
Theorem get_sale_info_all_or_nothing (appid : Z) (w : world) :
  exists s,
    fst (get_sale_info appid w) = Ok s /\
    (s = no_sale \/
     exists data app_data success details price percent positive initial final,
       net w AppDetailsAPI appid = body (VDict data) /\
       dict_lookup (str appid) data = Some (VDict app_data) /\
       dict_lookup "success" app_data = Some success /\
       truthy success = true /\
       dict_lookup "data" app_data = Some (VDict details) /\
       dict_lookup "price_overview" details = Some (VDict price) /\
       dict_lookup "discount_percent" price = Some percent /\
       gt_zero percent = Ok positive /\
       dict_lookup "initial" price = Some initial /\
       dict_lookup "final" price = Some final /\
       s = {| on_sale := positive; discount_percent := percent;
              original_price := initial; final_price := final |}).
Proof.
  run.
  repeat (split_match; cbn [fst]);
    eexists; (split; [reflexivity |]);
    try (left; reflexivity).
  right. invert_subscripts.
  match goal with
  | H : net w AppDetailsAPI appid = _ |- _ => rename H into Hnet
  end.
  repeat match goal with
         | H : Some _ = Some _ |- _ => inversion H; subst; clear H
         end.
  unfold body. do 9 eexists.
  repeat (split; [eassumption || reflexivity |]).
  reflexivity.
Qed.

(** ** The Recorder *)

Ltac raised_at Hm :=
  call Hm; [nope |];
  match goal with Hr : Raise _ = Raise _ |- _ => inversion Hr; subst; clear Hr end.

Ltac returned_at Hm :=
  call Hm;
  [ match goal with Hact : _ = inr _ |- _ =>
      cbn in Hact; repeat split_hyp Hact; try nope;
      inversion Hact; subst; clear Hact
    end
  | nope ].

(** Every run of the Recorder is of one of three kinds, as for
    [init_db]: it returns with the observation durable; it raises at or
    before the commit with the store as it was; it raises in a [close]
    call with the observation durable. *)
Lemma log_player_data_cases (appid : Z) (count : value) (sale_info : sale)
    (owners : value) (w : world) (r : result unit) (w' : world) :
  log_player_data appid count sale_info owners w = (r, w') ->
  exists new,
    log w' = log w ++ new /\
    ((r = Ok tt /\
      new = recorder_trace (insert_of appid count sale_info owners w) /\
      recorded appid count sale_info owners w w') \/
     (exists k done op,
         r = Raise (DatabaseError k) /\
         new = done ++ [StoreFailed op] /\
         Forall is_quiet done /\
         committed w' = committed w) \/
     (exists k tail,
         r = Raise (DatabaseError k) /\
         new = [Store Connect; Store Cursor;
                Store (Execute (insert_of appid count sale_info owners w));
                Store Commit] ++ tail /\
         (tail = [StoreFailed CursorClose] \/
          tail = [Store CursorClose; StoreFailed ConnClose]) /\
         recorded appid count sale_info owners w w')).
Proof.
  unfold log_player_data, insert_of, recorded. intros H.
  chain H; [cbv [time_time] in Hm; nope |].
  cbv [time_time] in Hm. inversion Hm; subst; clear Hm.
  (* connect *)
  chain H.
  { unfold psycopg2_connect in Hm. raised_at Hm.
    exists [StoreFailed Connect]. split; [reflexivity |].
    right; left. exists k, [], Connect. auto. }
  unfold psycopg2_connect in Hm. returned_at Hm.
  (* cursor *)
  chain H.
  { unfold conn_cursor in Hm. raised_at Hm.
    exists [Store Connect; StoreFailed Cursor]. split.
    - cbn. rewrite <- !app_assoc. reflexivity.
    - right; left. exists k, [Store Connect], Cursor.
      split; [reflexivity |]. split; [reflexivity |].
      split; [repeat constructor | reflexivity]. }
  unfold conn_cursor in Hm. returned_at Hm.
  (* INSERT INTO player_counts *)
  chain H.
  { unfold cur_execute in Hm. raised_at Hm.
    eexists [Store Connect; Store Cursor; StoreFailed (Execute _)]. split.
    - cbn. rewrite <- !app_assoc. reflexivity.
    - right; left. eexists k, [Store Connect; Store Cursor], (Execute _).
      split; [reflexivity |]. split; [reflexivity |].
      split; [repeat constructor | reflexivity]. }
  unfold cur_execute in Hm. returned_at Hm.
  (* commit *)
  chain H.
  { unfold conn_commit in Hm. raised_at Hm.
    eexists [Store Connect; Store Cursor; Store (Execute _); StoreFailed Commit].
    split.
    - cbn. rewrite <- !app_assoc. reflexivity.
    - right; left.
      eexists k, [Store Connect; Store Cursor; Store (Execute _)], Commit.
      split; [reflexivity |]. split; [reflexivity |].
      split; [repeat constructor | reflexivity]. }
  unfold conn_commit in Hm. returned_at Hm.
  (* close the cursor *)
  chain H.
  { unfold cur_close in Hm. raised_at Hm.
    eexists. split.
    - cbn. rewrite <- !app_assoc. reflexivity.
    - right; right. exists k, [StoreFailed CursorClose].
      split; [reflexivity |]. split; [reflexivity |].
      split; [left; reflexivity |].
      do 2 eexists. repeat split; try eassumption; reflexivity. }
  unfold cur_close in Hm. returned_at Hm.
  (* close the connection *)
  unfold conn_close in H. call H.
  - subst. inversion Hact; subst; clear Hact.
    eexists. split.
    + cbn. rewrite <- !app_assoc. reflexivity.
    + left. split; [reflexivity |]. split; [reflexivity |].
      do 2 eexists. repeat split; try eassumption; reflexivity.
  - subst. eexists. split.
    + cbn. rewrite <- !app_assoc. reflexivity.
    + right; right. exists k, [Store CursorClose; StoreFailed ConnClose].
      split; [reflexivity |]. split; [reflexivity |].
      split; [right; reflexivity |].
      do 2 eexists. repeat split; try eassumption; reflexivity.
Qed.

Lemma quiet_not_commit (trace : list event) :
  Forall is_quiet trace -> ~ In (Store Commit) trace.
Proof.
  intros Hq Hin. rewrite Forall_forall in Hq. exact (Hq _ Hin).
Qed.

(** X4.  A call of the Recorder that returns has made exactly one more
    observation durable, after the ones that were there: it holds the
    identifier and the values the call was given, the time read at the
    start of the call and the next id of the sequence.  The table of
    games is untouched, and the driver was called six times: connect,
    cursor, the insert, commit, and the two closes. *)
Theorem log_player_data_records (appid : Z) (count : value)
    (sale_info : sale) (owners : value) (w w' : world) :
  log_player_data appid count sale_info owners w = (Ok tt, w') ->
  recorded appid count sale_info owners w w' /\
  log w' = log w ++ recorder_trace (insert_of appid count sale_info owners w).
Proof.
  intros H.
  destruct (log_player_data_cases _ _ _ _ _ _ _ H)
    as (new & Hl & [(_ & Hnew & Hrec) | [(k & ? & ? & ? & _) | (k & ? & ? & _)]]);
    try nope.
  subst new. auto.
Qed.

Lemma log_player_data_records_witness :
  recorded 730 (VInt 1234) no_sale (VStr "unknown")
    (world_of net_steam [] ready_db)
    (snd (log_player_data 730 (VInt 1234) no_sale (VStr "unknown")
            (world_of net_steam [] ready_db))) /\
  log (snd (log_player_data 730 (VInt 1234) no_sale (VStr "unknown")
              (world_of net_steam [] ready_db)))
  = log (world_of net_steam [] ready_db)
    ++ recorder_trace
         (insert_of 730 (VInt 1234) no_sale (VStr "unknown")
            (world_of net_steam [] ready_db)).
Proof.
  refine (log_player_data_records 730 (VInt 1234) no_sale (VStr "unknown")
            (world_of net_steam [] ready_db)
            (snd (log_player_data 730 (VInt 1234) no_sale (VStr "unknown")
                    (world_of net_steam [] ready_db))) _).
  vm_compute. reflexivity.
Defined.

(** X5.  For an identifier that has no row in [games] (or when the
    tables do not exist), the Recorder cannot return: every run raises an
    exception of the store tier and leaves the durable store as it was. *)
Theorem log_player_data_unknown_game (appid : Z) (count : value)
    (sale_info : sale) (owners : value) (w : world) (r : result unit)
    (w' : world) :
  has_game appid (rows_of (committed w)) = false ->
  log_player_data appid count sale_info owners w = (r, w') ->
  (exists e, r = Raise e /\ store_tier e = true) /\
  committed w' = committed w.
Proof.
  intros Hnot H.
  assert (Hno : ~ recorded appid count sale_info owners w w').
  { intros (obs & rows & _ & Hg & Hin & _).
    unfold rows_of in Hnot. rewrite Hg in Hnot. congruence. }
  destruct (log_player_data_cases _ _ _ _ _ _ _ H)
    as (new & _ & [(_ & _ & Hrec) | [(k & done & op & Hr & _ & _ & Hc)
                                    | (k & tail & _ & _ & _ & Hrec)]]);
    try contradiction.
  subst r. split; [eauto | exact Hc].
Qed.

Lemma log_player_data_unknown_game_witness :
  (exists e,
      fst (log_player_data 42 (VInt 7) no_sale (VStr "unknown")
             (world_of net_down [] ready_db)) = Raise e /\
      store_tier e = true) /\
  committed (snd (log_player_data 42 (VInt 7) no_sale (VStr "unknown")
                    (world_of net_down [] ready_db)))
  = committed (world_of net_down [] ready_db).
Proof.
  refine (log_player_data_unknown_game 42 (VInt 7) no_sale (VStr "unknown")
            (world_of net_down [] ready_db)
            (fst (log_player_data 42 (VInt 7) no_sale (VStr "unknown")
                    (world_of net_down [] ready_db)))
            (snd (log_player_data 42 (VInt 7) no_sale (VStr "unknown")
                    (world_of net_down [] ready_db))) _ _).
  - vm_compute. reflexivity.
  - vm_compute. reflexivity.
Defined.

(** X6.  Whether the observation is durable is decided by the commit,
    not by the outcome of the call: in every run of the Recorder, if the
    commit returned the observation is durable, also when the call then
    raises in one of the [close] calls; if not, the durable store is what
    it was.  The commit is called at most once. *)
Theorem log_player_data_durable_iff_commit (appid : Z) (count : value)
    (sale_info : sale) (owners : value) (w : world) (r : result unit)
    (w' : world) :
  log_player_data appid count sale_info owners w = (r, w') ->
  exists new,
    log w' = log w ++ new /\
    (In (Store Commit) new -> recorded appid count sale_info owners w w') /\
    (~ In (Store Commit) new -> committed w' = committed w) /\
    (count_commits new <= 1)%nat.
Proof.
  intros H.
  destruct (log_player_data_cases _ _ _ _ _ _ _ H) as (new & Hl & Hcases).
  exists new. split; [exact Hl |].
  destruct Hcases
    as [(_ & Hnew & Hrec) | [(k & done & op & _ & Hnew & Hq & Hc)
                            | (k & tail & _ & Hnew & Htail & Hrec)]].
  - subst new. split; [auto |]. split.
    + intros Hno. exfalso. apply Hno. cbn. auto.
    + cbn. apply le_n.
  - subst new. split; [| split].
    + intros Hin. exfalso. apply in_app_or in Hin.
      destruct Hin as [Hin | [Hin | []]]; [| discriminate].
      exact (quiet_not_commit _ Hq Hin).
    + auto.
    + unfold count_commits. rewrite filter_app, quiet_no_commit by exact Hq.
      cbn. destruct op; cbn; auto.
  - subst new. split; [auto |]. split.
    + intros Hno. exfalso. apply Hno. cbn. auto.
    + destruct Htail; subst tail; cbn; apply le_n.
Qed.

Lemma log_player_data_durable_iff_commit_witness :
  exists new,
    log (snd (log_player_data 730 (VInt 7) no_sale (VStr "unknown") close_fails))
    = log close_fails ++ new /\
    (In (Store Commit) new ->
     recorded 730 (VInt 7) no_sale (VStr "unknown") close_fails
       (snd (log_player_data 730 (VInt 7) no_sale (VStr "unknown") close_fails))) /\
    (~ In (Store Commit) new ->
     committed (snd (log_player_data 730 (VInt 7) no_sale (VStr "unknown") close_fails))
     = committed close_fails) /\
    (count_commits new <= 1)%nat.
Proof.
  refine (log_player_data_durable_iff_commit 730 (VInt 7) no_sale (VStr "unknown")
            close_fails
            (fst (log_player_data 730 (VInt 7) no_sale (VStr "unknown") close_fails))
            (snd (log_player_data 730 (VInt 7) no_sale (VStr "unknown") close_fails))
            _).
  vm_compute. reflexivity.
Defined.

(** The run of [close_fails]: the call raises, and the observation is
    in the durable store. *)
Example log_player_data_close_fails_run :
  fst (log_player_data 730 (VInt 7) no_sale (VStr "unknown") close_fails)
  = Raise (DatabaseError OperationalError) /\
  map player_count
    (observations
       (committed
          (snd (log_player_data 730 (VInt 7) no_sale (VStr "unknown") close_fails))))
  = [VInt 7].
Proof.
  split; vm_compute; reflexivity.
Qed.

(** ** More on the store initializer *)

Lemma has_game_false_rows_for (appid : Z) (rows : list (Z * string)) :
  has_game appid rows = false -> rows_for appid rows = [].
Proof.
  intros H. apply rows_for_absent. intros Hin.
  apply has_game_iff in Hin. congruence.
Qed.

Lemma fold_insert_appends (appids : list (Z * string)) :
  forall rows,
    exists added,
      fold_left insert_game appids rows = rows ++ added /\
      forall g, In g added -> In g appids /\ has_game (fst g) rows = false.
Proof.
  induction appids as [| g rest IH]; intros rows; cbn [fold_left].
  - exists []. rewrite app_nil_r. split; [reflexivity | intros g []].
  - destruct (IH (insert_game rows g)) as (added & Heq & Hadded).
    unfold insert_game in *.
    destruct (has_game (fst g) rows) eqn:Hg.
    + exists added. split; [exact Heq |].
      intros g' Hin. destruct (Hadded g' Hin). split; [right |]; assumption.
    + exists (g :: added). split.
      * rewrite Heq, <- app_assoc. reflexivity.
      * intros g' [-> | Hin]; [split; [left; reflexivity | exact Hg] |].
        destruct (Hadded g' Hin) as (Hin' & Hnot). split; [right; exact Hin' |].
        unfold has_game in *. rewrite existsb_app in Hnot.
        apply orb_false_iff in Hnot. tauto.
Qed.

Lemma has_game_fold_absent (appid : Z) (appids : list (Z * string)) :
  forall rows,
    has_game appid rows = false ->
    ~ In appid (map fst appids) ->
    has_game appid (fold_left insert_game appids rows) = false.
Proof.
  induction appids as [| g rest IH]; intros rows Hnot Hin;
    cbn [fold_left map In] in *.
  - exact Hnot.
  - apply IH; [| tauto].
    rewrite has_game_insert_game, Hnot. cbn.
    apply Z.eqb_neq. tauto.
Qed.

(** X7.  [init_db] only ever adds to the table of games: whatever the
    outcome of the call, the durable rows are the rows that were there,
    in their order, followed by rows of the configuration whose id was not
    in the table; and the observations are untouched. *)
Theorem init_db_append_only (appids : list (Z * string)) (w : world)
    (r : result unit) (w' : world) :
  init_db appids w = (r, w') ->
  (exists added,
      rows_of (committed w') = rows_of (committed w) ++ added /\
      forall g, In g added ->
                In g appids /\ has_game (fst g) (rows_of (committed w)) = false) /\
  observations (committed w') = observations (committed w).
Proof.
  intros H.
  assert (Hinit : initialised appids (committed w) (committed w') ->
                  (exists added,
                      rows_of (committed w') = rows_of (committed w) ++ added /\
                      forall g, In g added ->
                                In g appids /\
                                has_game (fst g) (rows_of (committed w)) = false) /\
                  observations (committed w') = observations (committed w)).
  { intros (Hg & Hp). split.
    - unfold rows_of at 1. rewrite Hg. apply fold_insert_appends.
    - unfold observations at 1. rewrite Hp. reflexivity. }
  destruct (init_db_cases _ _ _ _ H)
    as (new & _ & [(_ & _ & Hi) | [(k & done & op & _ & _ & _ & Hc) | (k & _ & Hi & _)]]);
    auto.
  rewrite Hc. split; [| reflexivity].
  exists []. rewrite app_nil_r. split; [reflexivity | intros g []].
Qed.

Lemma init_db_append_only_witness :
  (exists added,
      rows_of (committed (snd (init_db APPIDS renamed_world)))
      = rows_of (committed renamed_world) ++ added /\
      forall g, In g added ->
                In g APPIDS /\
                has_game (fst g) (rows_of (committed renamed_world)) = false) /\
  observations (committed (snd (init_db APPIDS renamed_world)))
  = observations (committed renamed_world).
Proof.
  refine (init_db_append_only APPIDS renamed_world
            (fst (init_db APPIDS renamed_world))
            (snd (init_db APPIDS renamed_world)) _).
  vm_compute. reflexivity.
Defined.

(** X8.  [init_db] keeps the primary key of the table of games: if no
    two durable rows share an id before the call, none do after it,
    whatever the configuration (repeated ids included) and whatever the
    outcome. *)
Theorem init_db_keeps_primary_key (appids : list (Z * string)) (w : world)
    (r : result unit) (w' : world) :
  primary_key (rows_of (committed w)) ->
  init_db appids w = (r, w') ->
  primary_key (rows_of (committed w')).
Proof.
  intros Hpk H.
  assert (Hinit : initialised appids (committed w) (committed w') ->
                  primary_key (rows_of (committed w'))).
  { intros (Hg & _). unfold rows_of at 1. rewrite Hg.
    apply primary_key_fold. exact Hpk. }
  destruct (init_db_cases _ _ _ _ H)
    as (new & _ & [(_ & _ & Hi) | [(k & done & op & _ & _ & _ & Hc) | (k & _ & Hi & _)]]);
    auto.
  rewrite Hc. exact Hpk.
Qed.

Lemma init_db_keeps_primary_key_witness :
  primary_key
    (rows_of (committed (snd (init_db ((730, "CS2") :: APPIDS) renamed_world)))).
Proof.
  refine (init_db_keeps_primary_key ((730, "CS2") :: APPIDS) renamed_world
            (fst (init_db ((730, "CS2") :: APPIDS) renamed_world))
            (snd (init_db ((730, "CS2") :: APPIDS) renamed_world)) _ _).
  - vm_compute. repeat constructor. intros [].
  - vm_compute. reflexivity.
Defined.

(** X9.  A call of [init_db] that returns has given every configured
    identifier that had no row a row with its configured name (the name
    of its first entry in the configuration). *)
Theorem init_db_inserts_new (before after : list (Z * string)) (appid : Z)
    (name : string) (w w' : world) :
  ~ In appid (map fst before) ->
  has_game appid (rows_of (committed w)) = false ->
  init_db (before ++ (appid, name) :: after) w = (Ok tt, w') ->
  rows_for appid (rows_of (committed w')) = [(appid, name)].
Proof.
  intros Hfirst Hnot H.
  destruct (init_db_cases _ _ _ _ H)
    as (new & _ & [(_ & _ & Hg & _) | [(k & ? & ? & ? & _) | (k & ? & _)]]);
    try nope.
  unfold rows_of at 1. rewrite Hg, fold_left_app. cbn [fold_left].
  set (rows1 := fold_left insert_game before (rows_of (committed w))).
  assert (Hnot1 : has_game appid rows1 = false)
    by (apply has_game_fold_absent; assumption).
  assert (Hins : insert_game rows1 (appid, name) = rows1 ++ [(appid, name)]).
  { unfold insert_game. cbn [fst]. rewrite Hnot1. reflexivity. }
  rewrite Hins, rows_for_fold.
  - unfold rows_for. rewrite filter_app. fold (rows_for appid rows1).
    rewrite (has_game_false_rows_for _ _ Hnot1). cbn.
    rewrite Z.eqb_refl. reflexivity.
  - unfold has_game. rewrite existsb_app. cbn. rewrite Z.eqb_refl.
    apply orb_true_iff. right. reflexivity.
Qed.

Lemma init_db_inserts_new_witness :
  rows_for 570
    (rows_of
       (committed
          (snd (init_db ([(730, "Counter-Strike 2")] ++ (570, "Dota 2")
                         :: [(440, "Team Fortress 2")]) renamed_world))))
  = [(570, "Dota 2")].
Proof.
  refine (init_db_inserts_new [(730, "Counter-Strike 2")]
            [(440, "Team Fortress 2")] 570 "Dota 2" renamed_world
            (snd (init_db ([(730, "Counter-Strike 2")] ++ (570, "Dota 2")
                           :: [(440, "Team Fortress 2")]) renamed_world))
            _ _ _).
  - vm_compute. intros [H | []]. discriminate H.
  - vm_compute. reflexivity.
  - vm_compute. reflexivity.
Defined.

(** ** The connection on the error paths *)

Lemma stays_open_store_call (op : store_op) (act : world -> db_error + world) :
  (forall w w1, act w = inr w1 -> session w <> None -> session w1 <> None) ->
  stays_open (store_call op act).
Proof.
  intros Hact w r w' Hs H. call H; subst; cbn.
  - apply (Hact _ _ Hact0). exact Hs.
  - exact Hs.
Qed.

Lemma open_when_raised_store_call (op : store_op)
    (act : world -> db_error + world) :
  open_when_raised (store_call op act).
Proof.
  intros w e w' Hs H. call H; [nope |]. subst. exact Hs.
Qed.

Lemma stays_open_bind {A B : Type} (m : M A) (k : A -> M B) :
  stays_open m -> (forall a, stays_open (k a)) -> stays_open (bind m k).
Proof.
  intros Hm Hk w r w' Hs H. apply bind_inv in H.
  destruct H as [(e & H & _) | (a & w1 & H1 & H2)].
  - exact (Hm _ _ _ Hs H).
  - exact (Hk a _ _ _ (Hm _ _ _ Hs H1) H2).
Qed.

Lemma stays_open_for_each {A : Type} (l : list A) (body : A -> M unit) :
  (forall x, stays_open (body x)) -> stays_open (for_each l body).
Proof.
  intros Hbody. induction l as [| x l IH]; cbn [for_each].
  - intros w r w' Hs H. inversion H; subst. exact Hs.
  - apply stays_open_bind; [apply Hbody | intros _; exact IH].
Qed.

Lemma open_when_raised_bind {A B : Type} (m : M A) (k : A -> M B) :
  stays_open m -> (forall a, open_when_raised (k a)) ->
  open_when_raised (bind m k).
Proof.
  intros Hm Hk w e w' Hs H. apply bind_inv in H.
  destruct H as [(e' & H & _) | (a & w1 & H1 & H2)].
  - exact (Hm _ _ _ Hs H).
  - exact (Hk a _ _ _ (Hm _ _ _ Hs H1) H2).
Qed.

(** All driver calls but the close of the connection leave it open. *)
Lemma stays_open_driver_calls :
  stays_open conn_cursor /\
  (forall s, stays_open (cur_execute s)) /\
  stays_open conn_commit /\
  stays_open cur_close.
Proof.
  repeat split; try intros s; apply stays_open_store_call;
    intros w w1 H Hs; cbn in H; repeat split_hyp H; try nope;
    inversion H; subst; try destruct s; cbn; congruence.
Qed.

Lemma connect_opens (w w1 : world) :
  psycopg2_connect w = (Ok tt, w1) -> session w1 <> None.
Proof.
  intros H. destruct (psycopg2_connect_inv _ _ _ H) as (_ & [(_ & _ & Hs) | (k & ? & _)]);
    [| nope].
  rewrite Hs. discriminate.
Qed.

Lemma conn_close_closes (w w' : world) :
  conn_close w = (Ok tt, w') -> session w' = None.
Proof.
  unfold conn_close. intros H. call H; [| nope].
  inversion Hact; subst. reflexivity.
Qed.

(** X10.  [init_db] closes its connection on the success path only: a
    call that returns has closed it, and a call that raises once the
    connection is open leaves it open. *)
Theorem init_db_connection (appids : list (Z * string)) (w : world) :
  (forall w', init_db appids w = (Ok tt, w') -> session w' = None) /\
  (forall w1 e w',
      psycopg2_connect w = (Ok tt, w1) ->
      init_db appids w = (Raise e, w') ->
      session w' <> None).
Proof.
  destruct stays_open_driver_calls as (Hcur & Hexec & Hcommit & Hclose).
  split.
  - intros w' H. unfold init_db in H.
    do 7 (chain H; [nope |]).
    exact (conn_close_closes _ _ H).
  - intros w1 e w' Hconn H. unfold init_db in H.
    unfold bind at 1 in H. rewrite Hconn in H.
    revert H. apply (open_when_raised_bind _ _ Hcur); [| exact (connect_opens _ _ Hconn)].
    intros _. apply (open_when_raised_bind _ _ (Hexec _)).
    intros _. apply (open_when_raised_bind _ _ (Hexec _)).
    intros _. apply open_when_raised_bind.
    { apply stays_open_for_each. intros [appid name]. apply Hexec. }
    intros _. apply (open_when_raised_bind _ _ Hcommit).
    intros _. apply (open_when_raised_bind _ _ Hclose).
    intros _. apply open_when_raised_store_call.
Qed.

Lemma init_db_connection_witness :
  session (snd (init_db APPIDS fresh_world)) = None /\
  session (snd (init_db APPIDS failing_world)) <> None.
Proof.
  split.
  - destruct (init_db_connection APPIDS fresh_world) as (H & _).
    apply H. vm_compute. reflexivity.
  - destruct (init_db_connection APPIDS failing_world) as (_ & H).
    refine (H (snd (psycopg2_connect failing_world))
              (DatabaseError OperationalError)
              (snd (init_db APPIDS failing_world)) _ _);
      vm_compute; reflexivity.
Defined.

(** X11.  The Recorder closes its connection on the success path only:
    a call that returns has closed it, and a call that raises once the
    connection is open leaves it open. *)
Theorem log_player_data_connection (appid : Z) (count : value)
    (sale_info : sale) (owners : value) (w : world) :
  (forall w',
      log_player_data appid count sale_info owners w = (Ok tt, w') ->
      session w' = None) /\
  (forall w1 e w',
      psycopg2_connect w = (Ok tt, w1) ->
      log_player_data appid count sale_info owners w = (Raise e, w') ->
      session w' <> None).
Proof.
  destruct stays_open_driver_calls as (Hcur & Hexec & Hcommit & Hclose).
  split.
  - intros w' H. unfold log_player_data in H.
    do 6 (chain H; [nope |]).
    exact (conn_close_closes _ _ H).
  - intros w1 e w' Hconn H. unfold log_player_data in H.
    unfold bind at 1 in H. cbv [time_time] in H.
    unfold bind at 1 in H. rewrite Hconn in H.
    revert H. apply (open_when_raised_bind _ _ Hcur); [| exact (connect_opens _ _ Hconn)].
    intros _. apply (open_when_raised_bind _ _ (Hexec _)).
    intros _. apply (open_when_raised_bind _ _ Hcommit).
    intros _. apply (open_when_raised_bind _ _ Hclose).
    intros _. apply open_when_raised_store_call.
Qed.

Lemma log_player_data_connection_witness :
  session (snd (log_player_data 730 (VInt 7) no_sale (VStr "unknown")
                  (world_of net_down [] ready_db))) = None /\
  session (snd (log_player_data 730 (VInt 7) no_sale (VStr "unknown") close_fails))
  <> None.
Proof.
  split.
  - destruct (log_player_data_connection 730 (VInt 7) no_sale (VStr "unknown")
                (world_of net_down [] ready_db)) as (H & _).
    apply H. vm_compute. reflexivity.
  - destruct (log_player_data_connection 730 (VInt 7) no_sale (VStr "unknown")
                close_fails) as (_ & H).
    refine (H (snd (psycopg2_connect close_fails))
              (DatabaseError OperationalError)
              (snd (log_player_data 730 (VInt 7) no_sale (VStr "unknown")
                      close_fails)) _ _);
      vm_compute; reflexivity.
Defined.

(** ** What a run of the loop records *)

Lemma keeps_net_bind {A B : Type} (m : M A) (k : A -> M B) :
  keeps_net m -> (forall a, keeps_net (k a)) -> keeps_net (bind m k).
Proof.
  intros Hm Hk w r w' H. apply bind_inv in H.
  destruct H as [(e & H & _) | (a & w1 & H1 & H2)].
  - exact (Hm _ _ _ H).
  - rewrite (Hk a _ _ _ H2). exact (Hm _ _ _ H1).
Qed.

Lemma keeps_net_store_call (op : store_op) (act : world -> db_error + world) :
  (forall w w1, act w = inr w1 -> net w1 = net w) ->
  keeps_net (store_call op act).
Proof.
  intros Hact w r w' H. call H; subst; cbn; [| reflexivity].
  rewrite (Hact _ _ Hact0). reflexivity.
Qed.

Lemma keeps_net_log_player_data (appid : Z) (count : value)
    (sale_info : sale) (owners : value) :
  keeps_net (log_player_data appid count sale_info owners).
Proof.
  unfold log_player_data, psycopg2_connect, conn_cursor, cur_execute,
    conn_commit, cur_close, conn_close.
  apply keeps_net_bind; [intros w r w' H; inversion H; reflexivity | intros ts].
  repeat (apply keeps_net_bind; [| intros _]);
    apply keeps_net_store_call;
    intros w w1 H; cbn in H; repeat split_hyp H; try nope;
    inversion H; subst; reflexivity.
Qed.

Lemma collector_result_net (appid : Z) (w1 w2 : world) :
  net w1 = net w2 ->
  fst (get_current_player_count appid w1) = fst (get_current_player_count appid w2) /\
  fst (get_sale_info appid w1) = fst (get_sale_info appid w2) /\
  fst (get_estimated_owners appid w1) = fst (get_estimated_owners appid w2).
Proof.
  intros Hnet. repeat split; run; rewrite Hnet;
    repeat (split_match; cbn [fst]); reflexivity.
Qed.

Lemma diagnostic_filter (msg : exn -> message) (tail : list event) :
  diagnostic msg tail ->
  filter is_get tail = [] /\ filter is_commit tail = [].
Proof.
  intros [-> | (e & ->)]; split; reflexivity.
Qed.

Lemma sale_eta (s : sale) :
  {| on_sale := on_sale s; discount_percent := discount_percent s;
     original_price := original_price s; final_price := final_price s |} = s.
Proof.
  destruct s. reflexivity.
Qed.

(** One turn of the loop that returns. *)
Lemma track_game_ok (appid : Z) (name : string) (w w' : world) :
  track_game appid name w = (Ok tt, w') ->
  exists o new,
    tracked w (appid, name) o /\
    row_id o = serial w /\
    observations (committed w') = observations (committed w) ++ [o] /\
    player_counts (committed w') <> None /\
    games (committed w') = games (committed w) /\
    net w' = net w /\
    log w' = log w ++ new /\
    filter is_get new = requests_for (appid, name) /\
    count_commits new = 1%nat.
Proof.
  unfold track_game. intros H.
  chain H; [nope |]. inversion Hm; subst; clear Hm.
  set (wp := record_event (Print (Tracking name appid)) w) in *.
  chain H; [nope |]. rename Hm into Hcount. rename u into count.
  chain H; [nope |]. rename Hm into Hsale. rename u into sale_info.
  chain H; [nope |]. rename Hm into Howners. rename u into owners.
  chain H; [nope |]. rename Hm into Hrec. destruct u.
  cbv [bind print emit] in H. inversion H; subst; clear H.
  destruct (collectors_worlds appid wp) as ((t1 & H1 & D1) & _ & _).
  rewrite Hcount in H1. cbn [snd] in H1. subst w0.
  destruct (collectors_worlds appid (record_events (Get PlayerCountAPI appid :: t1) wp))
    as (_ & (t2 & H2 & D2) & _).
  rewrite Hsale in H2. cbn [snd] in H2. subst w1.
  match type of Howners with
  | get_estimated_owners _ ?wx = _ =>
      destruct (collectors_worlds appid wx) as (_ & _ & (t3 & H3 & D3));
      rewrite Howners in H3; cbn [snd] in H3; subst w2
  end.
  match type of Hrec with
  | log_player_data _ _ _ _ ?wx = _ => set (wr := wx) in *
  end.
  destruct (log_player_data_cases _ _ _ _ _ _ _ Hrec)
    as (rec & Hl & [(_ & Hnew & (obs & rows & Hobs & Hrows & Hin & Hcm))
                   | [(k & ? & ? & ? & _) | (k & ? & ? & _)]]);
    try nope.
  pose proof (keeps_net_log_player_data _ _ _ _ _ _ _ Hrec) as Hnet.
  assert (Hframe : log wr = log w ++ [Print (Tracking name appid)]
                              ++ (Get PlayerCountAPI appid :: t1)
                              ++ (Get AppDetailsAPI appid :: t2)
                              ++ (Get SteamSpyAPI appid :: t3) /\
                   net wr = net w /\ committed wr = committed w /\
                   serial wr = serial w).
  { unfold wr.
    repeat match goal with
           | |- context [record_events ?es ?wx] =>
               let F := fresh "F" in
               pose proof (record_events_frame es wx) as F;
               destruct F as (-> & -> & _ & _ & -> & -> & _)
           end.
    unfold wp. cbn. rewrite <- !app_assoc. cbn. auto. }
  destruct Hframe as (Hlog_r & Hnet_r & Hcm_r & Hser_r).
  destruct (collector_result_net appid wp w eq_refl) as (R1 & _ & _).
  destruct (collector_result_net appid
              (record_events (Get PlayerCountAPI appid :: t1) wp) w)
    as (_ & R2 & _).
  { destruct (record_events_frame (Get PlayerCountAPI appid :: t1) wp)
      as (_ & -> & _). reflexivity. }
  assert (R3 : fst (get_estimated_owners appid w) = Ok owners).
  { match type of Howners with
    | get_estimated_owners _ ?wx = _ =>
        destruct (collector_result_net appid wx w) as (_ & _ & R3);
        [| rewrite <- R3, Howners; reflexivity]
    end.
    repeat match goal with
           | |- context [record_events ?es ?wx] =>
               let F := fresh "F" in
               pose proof (record_events_frame es wx) as F;
               destruct F as (_ & -> & _)
           end.
    reflexivity. }
  rewrite Hcount in R1. rewrite Hsale in R2. cbn [fst] in R1, R2.
  exists (new_row (serial wr) appid (clock wr (List.length (log wr)))
            count sale_info owners).
  eexists.
  split; [| split; [| split; [| split; [| split; [| split; [| split; [| split]]]]]]].
  - unfold tracked. cbn [fst game_id player_count estimated_owners new_row].
    repeat split; auto.
    rewrite <- R2. unfold row_sale. cbn. rewrite sale_eta. reflexivity.
  - cbn. exact Hser_r.
  - cbn [committed record_event]. rewrite Hcm. unfold observations.
    cbn [player_counts]. rewrite <- Hcm_r, Hobs. reflexivity.
  - cbn [committed record_event]. rewrite Hcm. cbn. discriminate.
  - cbn [committed record_event]. rewrite Hcm. cbn [games].
    rewrite <- Hcm_r, Hrows. reflexivity.
  - cbn [net record_event]. rewrite Hnet. exact Hnet_r.
  - cbn [log record_event]. rewrite Hl, Hnew, Hlog_r.
    rewrite <- !app_assoc. reflexivity.
  - destruct (diagnostic_filter _ _ D1) as (G1 & _).
    destruct (diagnostic_filter _ _ D2) as (G2 & _).
    destruct (diagnostic_filter _ _ D3) as (G3 & _).
    cbn [app filter is_get]. rewrite !filter_app. cbn [filter is_get].
    rewrite !filter_app. cbn [filter is_get]. rewrite !filter_app.
    cbn [filter is_get]. rewrite G1, G2, G3. reflexivity.
  - destruct (diagnostic_filter _ _ D1) as (_ & G1).
    destruct (diagnostic_filter _ _ D2) as (_ & G2).
    destruct (diagnostic_filter _ _ D3) as (_ & G3).
    unfold count_commits.
    cbn [app filter is_commit]. rewrite !filter_app. cbn [filter is_commit].
    rewrite !filter_app. cbn [filter is_commit]. rewrite !filter_app.
    cbn [filter is_commit]. rewrite G1, G2, G3. reflexivity.
Qed.

Lemma tracked_net (w1 w2 : world) (g : Z * string) (o : observation) :
  net w1 = net w2 -> tracked w1 g o -> tracked w2 g o.
Proof.
  intros Hnet (Hid & Hc & Hs & Ho).
  destruct (collector_result_net (fst g) w1 w2 Hnet) as (R1 & R2 & R3).
  unfold tracked. rewrite <- R1, <- R2, <- R3. auto.
Qed.

(** A run of the loop that returns, turn after turn. *)
Lemma track_games_ok (appid_map : list (Z * string)) :
  forall w w',
    track_games appid_map w = (Ok tt, w') ->
    exists rows new,
      Forall2 (tracked w) appid_map rows /\
      observations (committed w') = observations (committed w) ++ rows /\
      games (committed w') = games (committed w) /\
      net w' = net w /\
      log w' = log w ++ new /\
      filter is_get new = flat_map requests_for appid_map /\
      count_commits new = List.length appid_map.
Proof.
  unfold track_games.
  induction appid_map as [| [appid name] rest IH]; intros w w' H;
    cbn [for_each] in H.
  - inversion H; subst. exists [], []. rewrite !app_nil_r.
    repeat split. constructor.
  - chain H; [nope |]. destruct u.
    destruct (track_game_ok _ _ _ _ Hm)
      as (o & new1 & Ht & _ & Hobs & _ & Hg & Hnet & Hl & Hget & Hcount).
    destruct (IH _ _ H)
      as (rows & new2 & Ht' & Hobs' & Hg' & Hnet' & Hl' & Hget' & Hcount').
    exists (o :: rows), (new1 ++ new2).
    split; [| split; [| split; [| split; [| split; [| split]]]]].
    + constructor; [exact Ht |].
      revert Ht'. apply Forall2_impl. intros g o'. apply tracked_net. exact Hnet.
    + rewrite Hobs', Hobs, <- app_assoc. reflexivity.
    + congruence.
    + congruence.
    + rewrite Hl', Hl, <- app_assoc. reflexivity.
    + rewrite filter_app, Hget, Hget'. reflexivity.
    + unfold count_commits in *. rewrite filter_app, length_app, Hcount, Hcount'.
      reflexivity.
Qed.

(** X12.  A run of [track_games] that returns has made exactly three
    requests for every entry of the mapping, in the order of the mapping
    and, for each entry, in the order player count, details, ownership:
    no request is repeated and none is left out.  It has committed once
    per entry. *)
Theorem track_games_requests (appid_map : list (Z * string)) (w w' : world) :
  track_games appid_map w = (Ok tt, w') ->
  exists new,
    log w' = log w ++ new /\
    filter is_get new = flat_map requests_for appid_map /\
    count_commits new = List.length appid_map.
Proof.
  intros H.
  destruct (track_games_ok _ _ _ H) as (rows & new & _ & _ & _ & _ & Hl & Hg & Hc).
  exists new. auto.
Qed.

Lemma track_games_requests_witness :
  exists new,
    log (snd (track_games APPIDS (world_of net_bare [] ready_db)))
    = log (world_of net_bare [] ready_db) ++ new /\
    filter is_get new = flat_map requests_for APPIDS /\
    count_commits new = List.length APPIDS.
Proof.
  refine (track_games_requests APPIDS (world_of net_bare [] ready_db)
            (snd (track_games APPIDS (world_of net_bare [] ready_db))) _).
  vm_compute. reflexivity.
Defined.

(** X13.  A run of [track_games] that returns has added exactly one
    observation per entry of the mapping to the durable store, after the
    ones that were there and in the order of the mapping; each carries the
    identifier of its entry and what the three collectors return for it.
    The table of games is as before. *)
Theorem track_games_records (appid_map : list (Z * string)) (w w' : world) :
  track_games appid_map w = (Ok tt, w') ->
  exists rows,
    Forall2 (tracked w) appid_map rows /\
    observations (committed w') = observations (committed w) ++ rows /\
    games (committed w') = games (committed w).
Proof.
  intros H.
  destruct (track_games_ok _ _ _ H) as (rows & new & Ht & Hobs & Hg & _).
  exists rows. auto.
Qed.

Lemma track_games_records_witness :
  exists rows,
    Forall2 (tracked (world_of net_steam [] ready_db)) APPIDS rows /\
    observations (committed (snd (track_games APPIDS (world_of net_steam [] ready_db))))
    = observations (committed (world_of net_steam [] ready_db)) ++ rows /\
    games (committed (snd (track_games APPIDS (world_of net_steam [] ready_db))))
    = games (committed (world_of net_steam [] ready_db)).
Proof.
  refine (track_games_records APPIDS (world_of net_steam [] ready_db)
            (snd (track_games APPIDS (world_of net_steam [] ready_db))) _).
  vm_compute. reflexivity.
Defined.

(** ** Runs in which the store fails no call *)

Lemma returns_bind {A B : Type} (P Q R : world -> Prop) (m : M A)
    (k : A -> M B) :
  returns P m Q -> (forall a, returns Q (k a) R) -> returns P (bind m k) R.
Proof.
  intros Hm Hk w HP. destruct (Hm w HP) as (a & w1 & H1 & HQ).
  destruct (Hk a w1 HQ) as (b & w2 & H2 & HR).
  exists b, w2. unfold bind. rewrite H1. auto.
Qed.

Lemma returns_for_each {A : Type} (I : world -> Prop) (l : list A)
    (body : A -> M unit) :
  (forall x, In x l -> returns I (body x) I) -> returns I (for_each l body) I.
Proof.
  induction l as [| x l IH]; intros Hbody; cbn [for_each].
  - intros w HI. exists tt, w. auto.
  - apply (returns_bind I I I).
    + apply Hbody. left. reflexivity.
    + intros _. apply IH. intros y Hy. apply Hbody. right. exact Hy.
Qed.

Lemma returns_store_call (P Q : world -> Prop) (op : store_op)
    (act : world -> db_error + world) :
  (forall w, P w ->
     no_fault w /\
     exists w1, act (set_faults (tl (faults w)) w) = inr w1 /\
                Q (record_event (Store op) w1)) ->
  returns P (store_call op act) Q.
Proof.
  intros H w HP. destruct (H w HP) as (Hnf & w1 & Hact & HQ).
  exists tt, (record_event (Store op) w1). split; [| exact HQ].
  unfold store_call, no_fault in *.
  destruct (faults w) as [| [|] fs]; cbn in *; try tauto;
    rewrite Hact; reflexivity.
Qed.

Lemma no_fault_tl (w : world) :
  no_fault w -> ~ In true (tl (faults w)).
Proof.
  unfold no_fault. destruct (faults w); cbn; tauto.
Qed.

Lemma returns_print (P : world -> Prop) (msg : message) :
  (forall w e, P w -> P (record_event e w)) -> returns P (print msg) P.
Proof.
  intros HP w Hw. exists tt, (record_event (Print msg) w). split; [reflexivity |].
  apply HP. exact Hw.
Qed.

Lemma returns_connect :
  returns no_fault psycopg2_connect connected.
Proof.
  apply returns_store_call. intros w Hnf. split; [exact Hnf |].
  eexists. split; [reflexivity |].
  split; [exact (no_fault_tl w Hnf) | cbn; eauto].
Qed.

Lemma returns_cursor : returns connected conn_cursor connected.
Proof.
  apply returns_store_call. intros w (Hnf & db & Hs). split; [exact Hnf |].
  cbn. rewrite Hs. eexists. split; [reflexivity |].
  split; [exact (no_fault_tl w Hnf) | cbn; eauto].
Qed.

Lemma returns_create_games :
  returns connected (cur_execute CreateGames) sees_games.
Proof.
  apply returns_store_call. intros w (Hnf & db & Hs). split; [exact Hnf |].
  destruct (run_create_games (serial w) db) as (db1 & Hrun & Hg & _).
  cbv beta. cbn [session serial set_faults]. rewrite Hs, Hrun.
  eexists. split; [reflexivity |].
  split; [exact (no_fault_tl w Hnf) | cbn; eauto].
Qed.

Lemma returns_create_player_counts :
  returns sees_games (cur_execute CreatePlayerCounts) sees_games.
Proof.
  apply returns_store_call. intros w (Hnf & db & rows & Hs & Hg).
  split; [exact Hnf |].
  destruct (run_create_player_counts (serial w) db rows Hg) as (db2 & Hrun & Hg2 & _).
  cbv beta. cbn [session serial set_faults]. rewrite Hs, Hrun.
  eexists. split; [reflexivity |].
  split; [exact (no_fault_tl w Hnf) | cbn; eauto].
Qed.

Lemma returns_insert_game (appid : Z) (name : string) :
  returns sees_games (cur_execute (InsertGame appid name)) sees_games.
Proof.
  apply returns_store_call. intros w (Hnf & db & rows & Hs & Hg).
  split; [exact Hnf |].
  cbv beta. cbn [session serial set_faults]. rewrite Hs. cbn [run_statement].
  rewrite Hg. eexists. split; [reflexivity |].
  split; [exact (no_fault_tl w Hnf) |].
  do 2 eexists. split; reflexivity.
Qed.

Lemma returns_commit_plain : returns sees_games conn_commit no_fault.
Proof.
  apply returns_store_call. intros w (Hnf & db & rows & Hs & Hg).
  split; [exact Hnf |].
  cbn. rewrite Hs. eexists. split; [reflexivity |].
  exact (no_fault_tl w Hnf).
Qed.

Lemma returns_closes :
  returns no_fault cur_close no_fault /\ returns no_fault conn_close no_fault.
Proof.
  split; apply returns_store_call; intros w Hnf; (split; [exact Hnf |]);
    eexists; (split; [reflexivity |]); exact (no_fault_tl w Hnf).
Qed.

Lemma init_db_runs (appids : list (Z * string)) :
  returns no_fault (init_db appids) no_fault.
Proof.
  unfold init_db. destruct returns_closes as (Hcur & Hconn).
  apply (returns_bind _ _ _ _ _ returns_connect). intros _.
  apply (returns_bind _ _ _ _ _ returns_cursor). intros _.
  apply (returns_bind _ _ _ _ _ returns_create_games). intros _.
  apply (returns_bind _ _ _ _ _ returns_create_player_counts). intros _.
  apply (returns_bind _ sees_games).
  { apply returns_for_each. intros [appid name] _. apply returns_insert_game. }
  intros _.
  apply (returns_bind _ _ _ _ _ returns_commit_plain). intros _.
  apply (returns_bind _ _ _ _ _ Hcur). intros _.
  exact Hconn.
Qed.

Lemma ready_record_event (ids : list Z) (w : world) (e : event) :
  ready ids w -> ready ids (record_event e w).
Proof.
  intros H. exact H.
Qed.

Lemma returns_collectors (ids : list Z) (appid : Z) :
  returns (ready ids) (get_current_player_count appid) (ready ids) /\
  returns (ready ids) (get_sale_info appid) (ready ids) /\
  returns (ready ids) (get_estimated_owners appid) (ready ids).
Proof.
  assert (Hframe : forall es w, ready ids w -> ready ids (record_events es w)).
  { intros es w (Hnf & Ht). unfold ready, no_fault.
    destruct (record_events_frame es w) as (_ & _ & _ & -> & _ & -> & _).
    auto. }
  repeat split; intros w Hw;
    destruct (collectors_worlds appid w) as ((t1 & H1 & _) & (t2 & H2 & _) & (t3 & H3 & _)).
  - destruct (get_current_player_count_total appid w) as (v & Hv).
    destruct (get_current_player_count appid w) as [r w'] eqn:Hrun.
    cbn [fst snd] in *. subst. eauto.
  - destruct (get_sale_info_total appid w) as (v & Hv).
    destruct (get_sale_info appid w) as [r w'] eqn:Hrun.
    cbn [fst snd] in *. subst. eauto.
  - destruct (get_estimated_owners_total appid w) as (v & Hv).
    destruct (get_estimated_owners appid w) as [r w'] eqn:Hrun.
    cbn [fst snd] in *. subst. eauto.
Qed.

Lemma returns_connect_ready (ids : list Z) :
  returns (ready ids) psycopg2_connect (in_session ids).
Proof.
  apply returns_store_call. intros w (Hnf & Ht). split; [exact Hnf |].
  eexists. split; [reflexivity |].
  split; [exact (no_fault_tl w Hnf) | cbn; eauto].
Qed.

Lemma returns_cursor_session (ids : list Z) :
  returns (in_session ids) conn_cursor (in_session ids).
Proof.
  apply returns_store_call. intros w (Hnf & db & Hs & Ht). split; [exact Hnf |].
  cbn. rewrite Hs. eexists. split; [reflexivity |].
  split; [exact (no_fault_tl w Hnf) | cbn; eauto].
Qed.

Lemma returns_insert_observation (ids : list Z) (appid ts : Z)
    (count : value) (sale_info : sale) (owners : value) :
  In appid ids ->
  returns (in_session ids)
    (cur_execute (InsertObservation appid ts count sale_info owners))
    (in_session ids).
Proof.
  intros Hin. apply returns_store_call.
  intros w (Hnf & db & Hs & Hp & Hg). split; [exact Hnf |].
  pose proof (Hg appid Hin) as Hhas. unfold rows_of in Hhas.
  destruct (games db) as [rows |] eqn:Hrows; [| discriminate Hhas].
  destruct (player_counts db) as [obs |] eqn:Hobs; [| congruence].
  cbv beta. cbn [session serial set_faults]. rewrite Hs.
  cbn [run_statement]. rewrite Hobs, Hrows, Hhas.
  eexists. split; [reflexivity |].
  split; [exact (no_fault_tl w Hnf) |].
  eexists. split; [reflexivity |].
  split; [cbn; discriminate |].
  intros a Ha. unfold rows_of. cbn [games].
  specialize (Hg a Ha). unfold rows_of in Hg. rewrite Hrows in Hg. exact Hg.
Qed.

Lemma returns_commit_session (ids : list Z) :
  returns (in_session ids) conn_commit (ready ids).
Proof.
  apply returns_store_call. intros w (Hnf & db & Hs & Ht). split; [exact Hnf |].
  cbn. rewrite Hs. eexists. split; [reflexivity |].
  split; [exact (no_fault_tl w Hnf) | exact Ht].
Qed.

Lemma returns_closes_ready (ids : list Z) :
  returns (ready ids) cur_close (ready ids) /\
  returns (ready ids) conn_close (ready ids).
Proof.
  split; apply returns_store_call; intros w (Hnf & Ht); (split; [exact Hnf |]);
    eexists; (split; [reflexivity |]);
    (split; [exact (no_fault_tl w Hnf) | exact Ht]).
Qed.

Lemma log_player_data_runs (ids : list Z) (appid : Z) (count : value)
    (sale_info : sale) (owners : value) :
  In appid ids ->
  returns (ready ids) (log_player_data appid count sale_info owners) (ready ids).
Proof.
  intros Hin. unfold log_player_data.
  destruct (returns_closes_ready ids) as (Hcur & Hconn).
  apply (returns_bind _ (ready ids)).
  { intros w Hw. eexists _, w. split; [reflexivity | exact Hw]. }
  intros ts.
  apply (returns_bind _ _ _ _ _ (returns_connect_ready ids)). intros _.
  apply (returns_bind _ _ _ _ _ (returns_cursor_session ids)). intros _.
  apply (returns_bind _ (in_session ids)).
  { apply returns_insert_observation. exact Hin. }
  intros _.
  apply (returns_bind _ _ _ _ _ (returns_commit_session ids)). intros _.
  apply (returns_bind _ _ _ _ _ Hcur). intros _.
  exact Hconn.
Qed.

Lemma track_game_runs (ids : list Z) (appid : Z) (name : string) :
  In appid ids -> returns (ready ids) (track_game appid name) (ready ids).
Proof.
  intros Hin. unfold track_game.
  destruct (returns_collectors ids appid) as (H1 & H2 & H3).
  assert (Hprint : forall msg, returns (ready ids) (print msg) (ready ids)).
  { intros msg. apply returns_print. intros w e. apply ready_record_event. }
  apply (returns_bind _ _ _ _ _ (Hprint _)). intros _.
  apply (returns_bind _ _ _ _ _ H1). intros count.
  apply (returns_bind _ _ _ _ _ H2). intros sale_info.
  apply (returns_bind _ _ _ _ _ H3). intros owners.
  apply (returns_bind _ (ready ids)).
  { apply log_player_data_runs. exact Hin. }
  intros _.
  repeat (apply (returns_bind _ _ _ _ _ (Hprint _)); intros _).
  apply Hprint.
Qed.

Lemma track_games_runs (appid_map : list (Z * string)) :
  returns (ready (map fst appid_map)) (track_games appid_map)
    (ready (map fst appid_map)).
Proof.
  unfold track_games. apply returns_for_each.
  intros [appid name] Hin. apply track_game_runs.
  apply (in_map fst) in Hin. exact Hin.
Qed.

Lemma keeps_net_for_each {A : Type} (l : list A) (body : A -> M unit) :
  (forall x, keeps_net (body x)) -> keeps_net (for_each l body).
Proof.
  intros Hbody. induction l as [| x l IH]; cbn [for_each].
  - intros w r w' H. inversion H. reflexivity.
  - apply keeps_net_bind; [apply Hbody | intros _; exact IH].
Qed.

Lemma keeps_net_init_db (appids : list (Z * string)) :
  keeps_net (init_db appids).
Proof.
  unfold init_db, psycopg2_connect, conn_cursor, conn_commit, cur_close,
    conn_close.
  assert (Hexec : forall s, keeps_net (cur_execute s)).
  { intros s. apply keeps_net_store_call.
    intros w w1 H; cbn in H; repeat split_hyp H; try nope;
      inversion H; subst; reflexivity. }
  repeat (apply keeps_net_bind; [| intros _]);
    try apply Hexec;
    try (apply keeps_net_for_each; intros [appid name]; apply Hexec);
    apply keeps_net_store_call;
    intros w w1 H; cbn in H; repeat split_hyp H; try nope;
    inversion H; subst; reflexivity.
Qed.

Lemma initialised_takes (appids : list (Z * string)) (db db' : database) :
  initialised appids db db' -> takes (map fst appids) db'.
Proof.
  intros (Hg & Hp). split.
  - rewrite Hp. discriminate.
  - intros appid Hin. unfold rows_of. rewrite Hg.
    apply has_game_fold. right. exact Hin.
Qed.

(** X14.  When the store fails no call, [init_db] returns, whatever the
    durable store held before (no table, or tables with any rows): after
    it both tables exist, every configured identifier has a game, and the
    observations that were there are still there. *)
Theorem init_db_returns (appids : list (Z * string)) (w : world) :
  no_fault w ->
  exists w',
    init_db appids w = (Ok tt, w') /\
    no_fault w' /\
    takes (map fst appids) (committed w') /\
    observations (committed w') = observations (committed w).
Proof.
  intros Hnf.
  destruct (init_db_runs appids w Hnf) as ([] & w' & Hrun & Hnf').
  exists w'. split; [exact Hrun |]. split; [exact Hnf' |].
  destruct (init_db_cases _ _ _ _ Hrun)
    as (new & _ & [(_ & _ & Hi) | [(k & ? & ? & ? & _) | (k & ? & _)]]);
    try nope.
  split; [exact (initialised_takes _ _ _ Hi) |].
  destruct Hi as (_ & Hp). unfold observations at 1. rewrite Hp. reflexivity.
Qed.

Lemma init_db_returns_witness :
  exists w',
    init_db APPIDS renamed_world = (Ok tt, w') /\
    no_fault w' /\
    takes (map fst APPIDS) (committed w') /\
    observations (committed w') = observations (committed renamed_world).
Proof.
  apply (init_db_returns APPIDS renamed_world).
  vm_compute. intros [].
Defined.

(** X15.  When the store fails no call, the table of observations
    exists and every identifier of the mapping has a game, [track_games]
    returns, whatever the three services answer or fail to answer; and
    the same holds of the world it leaves, so the run can be repeated. *)
Theorem track_games_returns (appid_map : list (Z * string)) (w : world) :
  ready (map fst appid_map) w ->
  exists w',
    track_games appid_map w = (Ok tt, w') /\
    ready (map fst appid_map) w'.
Proof.
  intros Hw.
  destruct (track_games_runs appid_map w Hw) as ([] & w' & Hrun & Hw').
  exists w'. auto.
Qed.

Lemma track_games_returns_witness :
  exists w',
    track_games APPIDS (world_of net_garbled [] ready_db) = (Ok tt, w') /\
    ready (map fst APPIDS) w'.
Proof.
  apply (track_games_returns APPIDS (world_of net_garbled [] ready_db)).
  split; [vm_compute; intros [] | split].
  - vm_compute. discriminate.
  - intros appid Hin. cbn in Hin.
    repeat (destruct Hin as [<- | Hin]; [reflexivity |]).
    destruct Hin.
Defined.

(** X16.  When the store fails no call, the program runs to its end from
    any durable store and under any behaviour of the three services:
    [main] returns, every configured game is in [games], and exactly one
    observation per configured game has been added after the ones that
    were there, in the order of the configuration, each with what the
    collectors return for its game. *)
Theorem main_returns (w : world) :
  no_fault w ->
  exists w' rows,
    main w = (Ok tt, w') /\
    Forall2 (tracked w) APPIDS rows /\
    observations (committed w') = observations (committed w) ++ rows /\
    forall g, In g APPIDS -> has_game (fst g) (rows_of (committed w')) = true.
Proof.
  intros Hnf.
  destruct (init_db_runs APPIDS w Hnf) as ([] & w1 & Hinit & Hnf1).
  destruct (init_db_cases _ _ _ _ Hinit)
    as (new & _ & [(_ & _ & Hi) | [(k & ? & ? & ? & _) | (k & ? & _)]]);
    try nope.
  pose proof (initialised_takes _ _ _ Hi) as Htakes.
  destruct (track_games_runs APPIDS w1 (conj Hnf1 Htakes))
    as ([] & w' & Htrack & Hready).
  destruct (track_games_ok _ _ _ Htrack)
    as (rows & trace & Ht & Hobs & Hg & _).
  exists w', rows.
  split; [| split; [| split]].
  - unfold main, bind. rewrite Hinit. exact Htrack.
  - revert Ht. apply Forall2_impl. intros g o. apply tracked_net.
    exact (keeps_net_init_db _ _ _ _ Hinit).
  - rewrite Hobs. destruct Hi as (_ & Hp).
    unfold observations at 1. rewrite Hp. reflexivity.
  - intros g Hin. destruct Hready as (_ & _ & Hhas).
    apply Hhas. apply in_map. exact Hin.
Qed.

Lemma main_returns_witness :
  exists w' rows,
    main fresh_world = (Ok tt, w') /\
    Forall2 (tracked fresh_world) APPIDS rows /\
    observations (committed w') = observations (committed fresh_world) ++ rows /\
    forall g, In g APPIDS -> has_game (fst g) (rows_of (committed w')) = true.
Proof.
  apply (main_returns fresh_world).
  vm_compute. intros [].
Defined.

(** ** What a run of the loop leaves behind when it raises *)

Lemma appends_same {A : Type} (m : M A) :
  (forall w r w', m w = (r, w') -> committed w' = committed w) -> appends m.
Proof.
  intros Hm w r w' H. rewrite (Hm _ _ _ H). split; [reflexivity |].
  exists []. rewrite app_nil_r. reflexivity.
Qed.

Lemma appends_bind {A B : Type} (m : M A) (k : A -> M B) :
  appends m -> (forall a, appends (k a)) -> appends (bind m k).
Proof.
  intros Hm Hk w r w' H. apply bind_inv in H.
  destruct H as [(e & H & _) | (a & w1 & H1 & H2)].
  - exact (Hm _ _ _ H).
  - destruct (Hm _ _ _ H1) as (Hg1 & x1 & Ho1).
    destruct (Hk a _ _ _ H2) as (Hg2 & x2 & Ho2).
    split; [congruence |].
    exists (x1 ++ x2). rewrite Ho2, Ho1, app_assoc. reflexivity.
Qed.

Lemma appends_for_each {A : Type} (l : list A) (body : A -> M unit) :
  (forall x, appends (body x)) -> appends (for_each l body).
Proof.
  intros Hbody. induction l as [| x l IH]; cbn [for_each].
  - apply appends_same. intros w r w' H. inversion H. reflexivity.
  - apply appends_bind; [apply Hbody | intros _; exact IH].
Qed.

Lemma appends_collectors (appid : Z) :
  appends (get_current_player_count appid) /\
  appends (get_sale_info appid) /\
  appends (get_estimated_owners appid).
Proof.
  split; [| split]; apply appends_same; intros w r w' H;
    destruct (collectors_worlds appid w)
      as ((t1 & H1 & _) & (t2 & H2 & _) & (t3 & H3 & _));
    rewrite H in *; cbn [snd] in *; subst w';
    match goal with
    | |- context [record_events ?es w] =>
        destruct (record_events_frame es w) as (_ & _ & _ & _ & _ & Hc & _)
    end;
    exact Hc.
Qed.

Lemma appends_log_player_data (appid : Z) (count : value) (sale_info : sale)
    (owners : value) :
  appends (log_player_data appid count sale_info owners).
Proof.
  intros w r w' H.
  assert (Hrec : recorded appid count sale_info owners w w' ->
                 games (committed w') = games (committed w) /\
                 exists extra,
                   observations (committed w')
                   = observations (committed w) ++ extra).
  { intros (obs & rows & Hobs & Hrows & _ & Hc). rewrite Hc. split.
    - cbn. congruence.
    - unfold observations. cbn. rewrite Hobs. eauto. }
  destruct (log_player_data_cases _ _ _ _ _ _ _ H)
    as (new & _ & [(_ & _ & Hr) | [(k & done & op & _ & _ & _ & Hc)
                                  | (k & tail & _ & _ & _ & Hr)]]);
    auto.
  rewrite Hc. split; [reflexivity |]. exists []. rewrite app_nil_r. reflexivity.
Qed.

Lemma appends_track_games (appid_map : list (Z * string)) :
  appends (track_games appid_map).
Proof.
  unfold track_games. apply appends_for_each. intros [appid name].
  unfold track_game.
  destruct (appends_collectors appid) as (H1 & H2 & H3).
  assert (Hprint : forall msg, appends (print msg)).
  { intros msg. apply appends_same. intros w r w' H. inversion H. reflexivity. }
  apply appends_bind; [apply Hprint | intros _].
  apply appends_bind; [exact H1 | intros count].
  apply appends_bind; [exact H2 | intros sale_info].
  apply appends_bind; [exact H3 | intros owners].
  apply appends_bind; [apply appends_log_player_data | intros _].
  repeat (apply appends_bind; [apply Hprint | intros _]).
  apply Hprint.
Qed.

(** X17.  [track_games] never changes or removes what is durable: on
    every run, whatever its outcome, the table of games is as before and
    the observations are the ones that were there, in their order,
    followed by the new ones. *)
Theorem track_games_append_only (appid_map : list (Z * string)) (w : world)
    (r : result unit) (w' : world) :
  track_games appid_map w = (r, w') ->
  games (committed w') = games (committed w) /\
  exists extra,
    observations (committed w') = observations (committed w) ++ extra.
Proof.
  intros H.
  destruct (appends_track_games appid_map w r w' H) as (Hgames & extra & Hobs).
  split; [exact Hgames |].
  exists extra. exact Hobs.
Qed.

Lemma track_games_append_only_witness :
  games (committed (snd (track_games APPIDS third_record_fails)))
  = games (committed third_record_fails) /\
  exists extra,
    observations (committed (snd (track_games APPIDS third_record_fails)))
    = observations (committed third_record_fails) ++ extra.
Proof.
  refine (track_games_append_only APPIDS third_record_fails
            (fst (track_games APPIDS third_record_fails))
            (snd (track_games APPIDS third_record_fails)) _).
  vm_compute. reflexivity.
Defined.

(** X18.  What was recorded before a failure stays recorded: when the
    loop has gone through the entries [before] and the run over
    [before ++ after] then raises, the durable store still holds one
    observation for each entry of [before], in order, each with what the
    collectors return for it; nothing is rolled back across games. *)
Theorem track_games_keeps_progress (before after : list (Z * string))
    (w w1 : world) (r : result unit) (w' : world) :
  track_games before w = (Ok tt, w1) ->
  track_games (before ++ after) w = (r, w') ->
  exists rows extra,
    Forall2 (tracked w) before rows /\
    observations (committed w')
    = observations (committed w) ++ rows ++ extra.
Proof.
  intros Hbefore Hrun.
  destruct (track_games_ok _ _ _ Hbefore) as (rows & new & Ht & Hobs & _).
  unfold track_games in Hrun. rewrite for_each_app in Hrun.
  unfold track_games in Hbefore. rewrite Hbefore in Hrun.
  destruct (appends_track_games after _ _ _ Hrun) as (_ & extra & Hextra).
  exists rows, extra. split; [exact Ht |].
  rewrite Hextra, Hobs, <- app_assoc. reflexivity.
Qed.

Lemma track_games_keeps_progress_witness :
  exists rows extra,
    Forall2 (tracked third_record_fails)
      [(730, "Counter-Strike 2"); (570, "Dota 2")] rows /\
    observations
      (committed
         (snd (track_games
                 ([(730, "Counter-Strike 2"); (570, "Dota 2")]
                  ++ [(440, "Team Fortress 2"); (578080, "PUBG")])
                 third_record_fails)))
    = observations (committed third_record_fails) ++ rows ++ extra.
Proof.
  refine (track_games_keeps_progress
            [(730, "Counter-Strike 2"); (570, "Dota 2")]
            [(440, "Team Fortress 2"); (578080, "PUBG")]
            third_record_fails
            (snd (track_games [(730, "Counter-Strike 2"); (570, "Dota 2")]
                    third_record_fails))
            (fst (track_games
                    ([(730, "Counter-Strike 2"); (570, "Dota 2")]
                     ++ [(440, "Team Fortress 2"); (578080, "PUBG")])
                    third_record_fails))
            (snd (track_games
                    ([(730, "Counter-Strike 2"); (570, "Dota 2")]
                     ++ [(440, "Team Fortress 2"); (578080, "PUBG")])
                    third_record_fails)) _ _).
  - vm_compute. reflexivity.
  - vm_compute. reflexivity.
Defined.

(** The run of [third_record_fails]: the third game raises, the first
    two observations are durable. *)
Example track_games_third_fails_run :
  fst (track_games APPIDS third_record_fails)
  = Raise (DatabaseError OperationalError) /\
  map game_id (observations (committed (snd (track_games APPIDS third_record_fails))))
  = [730; 570].
Proof.
  split; vm_compute; reflexivity.
Qed.
